(** * An in-memory key/value database with nested transactions

    Shallow embedding of [simple_database.py]: the classes [Data],
    [TransactionHandler], [Database] and [DBConsole], followed by the
    properties of the transaction engine.

    Python objects are mutable and shared; the embedding threads one
    explicit state (the [Database] object graph) through every method, in a
    small state-and-exception monad.  Dictionaries are [gmap]s, the sets of
    touched keys are [gset]s, Python lists are Rocq lists whose LAST element
    is the Python index [-1] (the top of the stack, the latest history
    entry), and the Python value [None] is the [None] of [option string]. *)

From stdpp Require Import gmap strings list fin_maps.
From Stdlib Require Import ZArith Lia.

(** ** Exceptions, outcomes, and the monad *)

Inductive exn := AttributeError | KeyError | IndexError | TypeError | EOFError.

(** A call either returns a value or raises; in both cases the object state
    it leaves behind is part of the outcome. *)
Inductive outcome (S A : Type) : Type :=
| Return (a : A) (s : S)
| Raise (e : exn) (s : S).
Arguments Return {S A} a s.
Arguments Raise {S A} e s.

Definition final_state {S A} (o : outcome S A) : S :=
  match o with Return _ s => s | Raise _ s => s end.

Definition M (S A : Type) : Type := S → outcome S A.

Definition raise {S A} (e : exn) : M S A := λ s, Raise e s.
Definition gets {S A} (f : S → A) : M S A := λ s, Return (f s) s.
Definition modify {S} (f : S → S) : M S unit := λ s, Return tt (f s).

#[export] Instance M_ret {S} : MRet (M S) := λ A a s, Return a s.
#[export] Instance M_bind {S} : MBind (M S) := λ A B f m s,
  match m s with
  | Return a s' => f a s'
  | Raise e s' => Raise e s'
  end.

Abbreviation ret := mret (only parsing).

(** [for x in l: body(x)] *)
Fixpoint for_each {S A} (l : list A) (body : A → M S unit) : M S unit :=
  match l with
  | [] => ret tt
  | x :: l' => body x ;; for_each l' body
  end.

(** ** The objects *)

(** [class Data]: a dictionary [data] and the frequency dictionary
    [values_freq].  The database stores strings under its keys, the
    transaction handler stores lists of value-or-[None]. *)
Record Data (A : Type) : Type := mkData {
  data : gmap string A;
  values_freq : gmap string Z
}.
Arguments mkData {A} _ _.
Arguments data {A} _.
Arguments values_freq {A} _.

(** [class TransactionHandler], without its [database] attribute: that
    attribute is a reference to the very [Data] object the [Database] owns,
    so the handler's methods run on the whole [Database] state below. *)
Record TransactionHandler : Type := mkTransactionHandler {
  transactions : Data (list (option string));
  transactions_opened : list (gset string)
}.

(** [class Database] *)
Record Database : Type := mkDatabase {
  database : Data string;
  transaction_handler : TransactionHandler
}.

Abbreviation db_data s := (data (database s)) (only parsing).
Abbreviation db_freq s := (values_freq (database s)) (only parsing).
Abbreviation txn_data s := (data (transactions (transaction_handler s))) (only parsing).
Abbreviation txn_freq s := (values_freq (transactions (transaction_handler s))) (only parsing).
Abbreviation opened s := (transactions_opened (transaction_handler s)) (only parsing).

(** Attribute updates. *)
Definition upd_db_data (f : gmap string string → gmap string string) (s : Database) : Database :=
  mkDatabase (mkData (f (db_data s)) (db_freq s)) (transaction_handler s).
Definition upd_db_freq (f : gmap string Z → gmap string Z) (s : Database) : Database :=
  mkDatabase (mkData (db_data s) (f (db_freq s))) (transaction_handler s).
Definition upd_txn_data
    (f : gmap string (list (option string)) → gmap string (list (option string)))
    (s : Database) : Database :=
  mkDatabase (database s)
    (mkTransactionHandler (mkData (f (txn_data s)) (txn_freq s)) (opened s)).
Definition upd_txn_freq (f : gmap string Z → gmap string Z) (s : Database) : Database :=
  mkDatabase (database s)
    (mkTransactionHandler (mkData (txn_data s) (f (txn_freq s))) (opened s)).
Definition upd_opened (f : list (gset string) → list (gset string)) (s : Database) : Database :=
  mkDatabase (database s)
    (mkTransactionHandler (transactions (transaction_handler s)) (f (opened s))).

(** ** [class Data]: the frequency index *)

Module Data.

(** [Data()] *)
Definition new {A} : Data A := mkData ∅ ∅.

(** [values_freq.get(value, 0)] *)
Definition count (values_freq : gmap string Z) (value : string) : Z :=
  default 0%Z (values_freq !! value).

Definition modify_freq (values_freq : gmap string Z)
    (key_of_value : option string) (num : Z) : gmap string Z :=
  match key_of_value with
  | Some v =>
      let values_freq := <[v := (count values_freq v + num)%Z]> values_freq in
      if bool_decide (values_freq !! v = Some 0%Z)
      then delete v values_freq
      else values_freq
  | None => values_freq
  end.

Definition increase_freq (values_freq : gmap string Z) (key_of_value : option string) :=
  modify_freq values_freq key_of_value 1.

Definition decrease_freq (values_freq : gmap string Z) (key_of_value : option string) :=
  modify_freq values_freq key_of_value (-1).

End Data.

(** ** [class TransactionHandler] *)

Module TransactionHandler.

(** [TransactionHandler(database)] *)
Definition new : TransactionHandler := mkTransactionHandler Data.new [].

Definition get_active_size : M Database nat :=
  gets (λ s, length (opened s)).

Definition is_active : M Database bool :=
  n ← get_active_size; ret (0 <? n).

Definition is_one_active : M Database bool :=
  n ← get_active_size; ret (n =? 1).

Definition clear : M Database unit :=
  modify (λ s, mkDatabase (database s) new).

(** *** Python primitives on the handler's containers

    A Python name such as [key_list] or [latest_transaction] is a
    reference to the list stored in [transactions.data] or to the set at
    the end of [transactions_opened]; mutating through it mutates the
    container.  Each primitive therefore acts on the place the reference
    points to. *)

(** [self.transactions.data[key]] *)
Definition subscript (key : string) : M Database (list (option string)) :=
  λ s, match txn_data s !! key with
       | Some key_list => Return key_list s
       | None => Raise KeyError s
       end.

(** [key_list[-1] = value] *)
Definition key_list_store_last (key : string) (value : option string) : M Database unit :=
  key_list ← subscript key;
  match key_list with
  | [] => raise IndexError
  | _ => modify (upd_txn_data <[key := removelast key_list ++ [value]]>)
  end.

(** [key_list.append(value)] *)
Definition key_list_append (key : string) (value : option string) : M Database unit :=
  key_list ← subscript key;
  modify (upd_txn_data <[key := key_list ++ [value]]>).

(** [key_list.pop()] *)
Definition key_list_pop (key : string) : M Database (option string) :=
  key_list ← subscript key;
  match last key_list with
  | None => raise IndexError
  | Some value =>
      modify (upd_txn_data <[key := removelast key_list]>) ;; ret value
  end.

(** [self.transactions_opened[-1]] *)
Definition opened_last : M Database (gset string) :=
  λ s, match last (opened s) with
       | Some latest_transaction => Return latest_transaction s
       | None => Raise IndexError s
       end.

(** [latest_transaction.add(key)] *)
Definition latest_add (key : string) : M Database unit :=
  latest_transaction ← opened_last;
  modify (upd_opened (λ l, removelast l ++ [latest_transaction ∪ {[key]}])).

(** [self.transactions_opened.pop()] *)
Definition opened_pop : M Database (gset string) :=
  latest_transaction ← opened_last;
  modify (upd_opened (λ l, removelast l)) ;; ret latest_transaction.

(** *** The methods *)

(** [if key_list:] holds exactly when the list has a last element. *)
Definition get (key : string) : M Database (option string * bool) :=
  key_list ← gets (λ s, default [] (txn_data s !! key));
  match last key_list with
  | Some latest_value => ret (latest_value, true)
  | None => ret (None, false)
  end.

Definition set (key : string) (old_value : option string) (new_value : string)
    : M Database unit :=
  active ← is_active;
  if active : bool then
    latest_transaction ← opened_last;
    present ← gets (λ s, bool_decide (is_Some (txn_data s !! key)));
    (if present : bool then ret tt else modify (upd_txn_data <[key := []]>)) ;;
    (if bool_decide (key ∈ latest_transaction) then
       key_list_store_last key (Some new_value)
     else
       key_list_append key (Some new_value) ;;
       latest_add key) ;;
    modify (upd_txn_freq (λ f, Data.decrease_freq f old_value)) ;;
    modify (upd_txn_freq (λ f, Data.increase_freq f (Some new_value)))
  else ret tt.

Definition unset (key : string) (old_value : option string) : M Database unit :=
  active ← is_active;
  if active && bool_decide (old_value ≠ None) then
    latest_transaction ← opened_last;
    modify (upd_txn_data (λ d, <[key := default [] (d !! key)]> d)) ;;
    (if bool_decide (key ∈ latest_transaction) then
       key_list_store_last key None
     else
       latest_add key ;;
       key_list_append key None) ;;
    modify (upd_txn_freq (λ f, Data.decrease_freq f old_value))
  else ret tt.

Definition num_equal_to (value : string) : M Database Z :=
  gets (λ s, Data.count (txn_freq s) value).

Definition begin : M Database unit :=
  modify (upd_opened (λ l, l ++ [∅])).

(** The body of the loop of [rollback]. *)
Definition rollback_key (modified_key : string) : M Database unit :=
  modified_value ← key_list_pop modified_key;
  '(previous_value, found) ← get modified_key;
  previous_value ←
    (if found : bool then ret previous_value
     else gets (λ s, db_data s !! modified_key));
  modify (upd_txn_freq (λ f, Data.increase_freq f previous_value)) ;;
  modify (upd_txn_freq (λ f, Data.decrease_freq f modified_value)) ;;
  key_list ← subscript modified_key;
  match key_list with
  | [] => modify (upd_txn_data (delete modified_key))
  | _ => ret tt
  end.

(** The loop runs over the touched keys in the order of [elements]. *)
Definition rollback : M Database unit :=
  active ← is_active;
  if active : bool then
    one ← is_one_active;
    if one : bool then clear
    else
      latest_transaction ← opened_pop;
      for_each (elements latest_transaction) rollback_key
  else ret tt.

(** [if value:] — Python truthiness of a value-or-[None]: [None] and the
    empty string are false. *)
Definition truthy (value : option string) : bool :=
  match value with
  | Some v => bool_decide (v ≠ EmptyString)
  | None => false
  end.

(** The body of the first loop of [commit]; [key_list] is the list stored
    under [key]. *)
Definition commit_item (item : string * list (option string)) : M Database unit :=
  let key := item.1 in
  value ← key_list_pop key;
  match value with
  | Some v =>
      if truthy value
      then modify (upd_db_data <[key := v]>)
      else modify (upd_db_data (delete key))
  | None => modify (upd_db_data (delete key))
  end.

(** The body of the second loop of [commit]. *)
Definition commit_freq (item : string * Z) : M Database unit :=
  modify (upd_db_freq (λ f, Data.modify_freq f (Some item.1) item.2)).

(** The loops run over the two dictionaries in the order of
    [map_to_list]. *)
Definition commit : M Database unit :=
  active ← is_active;
  if active : bool then
    items ← gets (λ s, map_to_list (txn_data s));
    for_each items commit_item ;;
    freqs ← gets (λ s, map_to_list (txn_freq s));
    for_each freqs commit_freq ;;
    clear
  else ret tt.

End TransactionHandler.

(** ** [class Database] *)

Module Database.

(** [Database()] *)
Definition new : Database := mkDatabase Data.new TransactionHandler.new.

Definition is_transaction_active : M Database bool :=
  TransactionHandler.is_active.

Definition get (key : string) : M Database (option string) :=
  active ← is_transaction_active;
  if active : bool then
    '(value, found) ← TransactionHandler.get key;
    if found : bool then ret value
    else gets (λ s, db_data s !! key)
  else gets (λ s, db_data s !! key).

Definition set (key : string) (new_value : string) : M Database unit :=
  old_value ← get key;
  if bool_decide (old_value ≠ Some new_value) then
    active ← is_transaction_active;
    if active : bool then
      TransactionHandler.set key old_value new_value
    else
      modify (upd_db_data <[key := new_value]>) ;;
      modify (upd_db_freq (λ f, Data.decrease_freq f old_value)) ;;
      modify (upd_db_freq (λ f, Data.increase_freq f (Some new_value)))
  else ret tt.

(** [self.data]: a [Database] object has the attributes [database] and
    [transaction_handler] only, so this attribute lookup raises. *)
Definition self_data : M Database (gmap string string) :=
  raise AttributeError.

(** Without a transaction, [unset] evaluates [self.data.pop(key, None)];
    the lookup of [self.data] raises before anything is removed and the
    frequency update after it is never reached. *)
Definition unset (key : string) : M Database unit :=
  old_value ← get key;
  active ← is_transaction_active;
  if active : bool then
    TransactionHandler.unset key old_value
  else
    _ ← self_data;
    modify (upd_db_freq (λ f, Data.decrease_freq f old_value)).

Definition num_equal_to (value : string) : M Database Z :=
  here ← gets (λ s, Data.count (db_freq s) value);
  there ← TransactionHandler.num_equal_to value;
  ret (here + there)%Z.

Definition begin : M Database unit := TransactionHandler.begin.

Definition rollback : M Database bool :=
  active ← is_transaction_active;
  if active : bool then TransactionHandler.rollback ;; ret true
  else ret false.

Definition commit : M Database bool :=
  active ← is_transaction_active;
  if active : bool then TransactionHandler.commit ;; ret true
  else ret false.

End Database.

(** ** Operations of the engine, as data *)

Inductive op :=
| GET (name : string)
| SET (name value : string)
| UNSET (name : string)
| NUMEQUALTO (value : string)
| BEGIN
| ROLLBACK
| COMMIT.

(** What a call hands back to its caller. *)
Inductive answer :=
| AValue (v : option string)
| ACount (n : Z)
| ABool (b : bool)
| ANone.

Definition exec (o : op) : M Database answer :=
  match o with
  | GET name => v ← Database.get name; ret (AValue v)
  | SET name value => Database.set name value ;; ret ANone
  | UNSET name => Database.unset name ;; ret ANone
  | NUMEQUALTO value => n ← Database.num_equal_to value; ret (ACount n)
  | BEGIN => Database.begin ;; ret ANone
  | ROLLBACK => b ← Database.rollback; ret (ABool b)
  | COMMIT => b ← Database.commit; ret (ABool b)
  end.

(** Run a sequence of calls; an exception stops the run. *)
Fixpoint run (ops : list op) : M Database (list answer) :=
  match ops with
  | [] => ret []
  | o :: ops' => a ← exec o; rest ← run ops'; ret (a :: rest)
  end.

(** The states a [Database] object can be in when its callers issue only
    the calls allowed by [allowed]: the fresh object, and whatever a call
    leaves behind, whether it returned or raised. *)
Inductive reachable_by (allowed : op → Prop) : Database → Prop :=
| reachable_new : reachable_by allowed Database.new
| reachable_exec o s :
    allowed o → reachable_by allowed s →
    reachable_by allowed (final_state (exec o s)).

(** The states reachable by arbitrary calls. *)
Definition reachable : Database → Prop := reachable_by (λ _, True).

(** The calls that never store the empty string as a value. *)
Definition nonempty_value (o : op) : Prop :=
  match o with
  | SET _ value => value ≠ EmptyString
  | _ => True
  end.

(** The calls that read or write data, as opposed to the three that open
    and close transactions. *)
Definition data_op (o : op) : Prop :=
  match o with
  | GET _ | SET _ _ | UNSET _ | NUMEQUALTO _ => True
  | BEGIN | ROLLBACK | COMMIT => False
  end.

(** ** Observations and the merged view *)

(** The value a call returns, when it returns. *)
Definition returned {S A} (o : outcome S A) : option A :=
  match o with Return a _ => Some a | Raise _ _ => None end.

(** How a key's history overrides the store's entry: the last history
    entry if there is one ([None] in it being the deleted-marker), else the
    store's entry. *)
Definition overlay (stored : option string) (history : option (list (option string)))
    : option string :=
  match history with
  | Some key_list =>
      match last key_list with
      | Some latest_value => latest_value
      | None => stored
      end
  | None => stored
  end.

(** The merged view: the store overridden by the aggregate history. *)
Definition merged_view (s : Database) : gmap string string :=
  merge overlay (db_data s) (txn_data s).

(** Number of keys of a key/value mapping that hold [value]. *)
Definition nkeys (m : gmap string string) (value : string) : Z :=
  Z.of_nat (size (filter (λ kv : string * string, kv.2 = value) m)).

(** 1 when the value-or-[None] is [value], else 0. *)
Definition ind (o : option string) (value : string) : Z :=
  if decide (o = Some value) then 1%Z else 0%Z.

(** The history of a key, empty when the key has none. *)
Definition history_of (s : Database) (key : string) : list (option string) :=
  default [] (txn_data s !! key).

(** Number of open layers whose touched set contains the key. *)
Definition layers_touching (s : Database) (key : string) : nat :=
  length (filter (λ touched : gset string, key ∈ touched) (opened s)).

(** A frequency dictionary is sparse when it stores no zero count. *)
Definition sparse (values_freq : gmap string Z) : Prop :=
  ∀ v, values_freq !! v ≠ Some 0%Z.

(** ** [class DBConsole] *)

(** The console calls three built-ins of Python on the line it reads:
    [str.split], which splits at the characters [str.isspace] accepts, and
    [str.upper].  Both know all of Unicode; a Rocq string is a sequence of
    8-bit characters.  The console is therefore embedded for ASCII lines,
    the lines [ascii_text] accepts: on these [is_space], [split] and
    [upper] below compute what the built-ins compute.  On other lines they
    do not (Python also splits at U+00A0 and uppercases U+017F to [S]), so
    a theorem whose statement depends on the fields of a line that may hold
    such characters assumes [ascii_text line = true]. *)

(** Whether every character of a string is an ASCII character, one with a
    code below 128. *)
Fixpoint ascii_text (s : string) : bool :=
  match s with
  | EmptyString => true
  | String c rest => (Ascii.nat_of_ascii c <? 128) && ascii_text rest
  end.

(** [str.isspace] on one ASCII character: tab to carriage return, the four
    separators 28 to 31, and the space. *)
Definition is_space (c : Ascii.ascii) : bool :=
  let n := Ascii.nat_of_ascii c in
  ((9 <=? n) && (n <=? 13)) || ((28 <=? n) && (n <=? 32)).

(** [line.split()] on an ASCII line: the maximal runs of non-space
    characters; [word] is the run read so far. *)
Fixpoint split_from (word line : string) : list string :=
  match line with
  | EmptyString => match word with EmptyString => [] | _ => [word] end
  | String c rest =>
      if is_space c then
        match word with
        | EmptyString => split_from EmptyString rest
        | _ => word :: split_from EmptyString rest
        end
      else split_from (word +:+ String c EmptyString) rest
  end.

Definition split (line : string) : list string := split_from EmptyString line.

(** [str.upper] on ASCII text: the letters [a] to [z] become [A] to [Z],
    every other ASCII character stays. *)
Definition upper_char (c : Ascii.ascii) : Ascii.ascii :=
  let n := Ascii.nat_of_ascii c in
  if (97 <=? n) && (n <=? 122) then Ascii.ascii_of_nat (n - 32) else c.

Fixpoint upper (s : string) : string :=
  match s with
  | EmptyString => EmptyString
  | String c rest => String (upper_char c) (upper rest)
  end.

(** What [print] writes: a string, or an integer. *)
Inductive printed :=
| Text (s : string)
| Number (n : Z).

Module DBConsole.

(** The console object together with the two streams it talks to. *)
Record t : Type := mk {
  database : Database;
  stdin : list string;
  stdout : list printed
}.

Definition end_operation : gset string := {["END"]}.

Definition valid_operations_arguments : gset (string * nat) :=
  {[ ("GET", 1); ("SET", 2); ("UNSET", 1); ("NUMEQUALTO", 1);
     ("BEGIN", 0); ("ROLLBACK", 0); ("COMMIT", 0) ]}.

(** A method call on [self.database]. *)
Definition on_database {A} (m : M Database A) : M t A :=
  λ c, match m (database c) with
       | Return a d => Return a (mk d (stdin c) (stdout c))
       | Raise e d => Raise e (mk d (stdin c) (stdout c))
       end.

Definition print (p : printed) : M t unit :=
  modify (λ c, mk (database c) (stdin c) (stdout c ++ [p])).

(** [input()]: the next line, [EOFError] at the end of the input. *)
Definition input : M t string :=
  λ c, match stdin c with
       | line :: rest => Return line (mk (database c) rest (stdout c))
       | [] => Raise EOFError c
       end.

(** [try: body except EOFError: return False] *)
Definition try_except_EOFError (body : M t bool) : M t bool :=
  λ c, match body c with
       | Raise EOFError c' => Return false c'
       | o => o
       end.

(** The branches of the dispatch; a call that unpacks [arguments] raises
    [TypeError] when their number is not the one the method takes. *)
Definition dispatch (method_name : string) (arguments : list string) : M t unit :=
  if bool_decide (method_name = "GET") then
    match arguments with
    | [name] =>
        output ← on_database (Database.get name);
        print (Text (if TransactionHandler.truthy output
                     then default "NULL" output else "NULL"))
    | _ => raise TypeError
    end
  else if bool_decide (method_name = "SET") then
    match arguments with
    | [name; value] => on_database (Database.set name value)
    | _ => raise TypeError
    end
  else if bool_decide (method_name = "UNSET") then
    match arguments with
    | [name] => on_database (Database.unset name)
    | _ => raise TypeError
    end
  else if bool_decide (method_name = "NUMEQUALTO") then
    match arguments with
    | [value] =>
        output ← on_database (Database.num_equal_to value);
        print (Number output)
    | _ => raise TypeError
    end
  else if bool_decide (method_name = "BEGIN") then
    match arguments with
    | [] => on_database Database.begin
    | _ => raise TypeError
    end
  else if bool_decide (method_name = "ROLLBACK") then
    match arguments with
    | [] =>
        output ← on_database Database.rollback;
        if output : bool then ret tt else print (Text "NO TRANSACTION")
    | _ => raise TypeError
    end
  else if bool_decide (method_name = "COMMIT") then
    match arguments with
    | [] =>
        output ← on_database Database.commit;
        if output : bool then ret tt else print (Text "NO TRANSACTION")
    | _ => raise TypeError
    end
  else ret tt.

Definition read_from_stdin : M t bool :=
  try_except_EOFError (
    line ← input;
    match split line with
    | field0 :: arguments =>
        let method_name := upper field0 in
        let arguments_count := length arguments in
        if bool_decide (method_name ∈ end_operation) then ret false
        else
          (if bool_decide ((method_name, arguments_count) ∈ valid_operations_arguments)
           then dispatch method_name arguments
           else print (Text "Invalid method or number of arguments")) ;;
          ret true
    | [] => ret true
    end).

(** [while active: active = self.read_from_stdin()], at most [fuel]
    rounds. *)
Fixpoint listen_loop (fuel : nat) : M t unit :=
  match fuel with
  | 0 => ret tt
  | S fuel' =>
      active ← read_from_stdin;
      if active : bool then listen_loop fuel' else ret tt
  end.

(** Every round consumes a line or meets the end of the input, so one
    round more than there are lines is enough. *)
Definition listen : M t unit :=
  λ c, listen_loop (S (length (stdin c))) c.

(** [DBConsole()] in front of the given input. *)
Definition new (lines : list string) : t := mk Database.new lines [].

End DBConsole.

(** ** Invariants *)

(** What every state of the transaction handler satisfies: a key's history
    has one entry per open layer that touched it, no stored history is
    empty, the aggregate frequency dictionary stores no zero, and its count
    of a value is the number of keys holding the value in the merged view
    minus their number in the store. *)
Record handler_inv (s : Database) : Prop := {
  inv_length : ∀ key, length (history_of s key) = layers_touching s key;
  inv_nonempty : ∀ key, txn_data s !! key ≠ Some [];
  inv_sparse : sparse (txn_freq s);
  inv_delta : ∀ v,
    Data.count (txn_freq s) v = (nkeys (merged_view s) v - nkeys (db_data s) v)%Z
}.

(** The same in the middle of the loop of [rollback]: the popped layer is
    gone from the stack, and the keys still [pending] carry the one
    history entry it wrote. *)
Record pending_inv (pending : list string) (s : Database) : Prop := {
  pend_length : ∀ key,
    length (history_of s key) =
    layers_touching s key + (if decide (key ∈ pending) then 1 else 0);
  pend_nonempty : ∀ key, txn_data s !! key ≠ Some [];
  pend_sparse : sparse (txn_freq s);
  pend_delta : ∀ v,
    Data.count (txn_freq s) v = (nkeys (merged_view s) v - nkeys (db_data s) v)%Z
}.

(** What popping the last entry leaves under a key of the history. *)
Definition popped_history (key_list : list (option string))
    : option (list (option string)) :=
  match removelast key_list with
  | [] => None
  | rest => Some rest
  end.

(** What [commit] leaves in the store under a key whose last history
    entry is [value]: the entry when it is true in Python's sense, nothing
    otherwise. *)
Definition committed (value : option string) : option string :=
  if TransactionHandler.truthy value then value else None.

(** State [s] is state [s0] with one more layer open on top, whose touched
    set is [top]: the store is the same, the keys the layer touched carry
    one more history entry, the other keys are as they were. *)
Record layer_over (s0 s : Database) (top : gset string) : Prop := {
  over_database : database s = database s0;
  over_opened : opened s = opened s0 ++ [top];
  over_touched : ∀ key, key ∈ top →
    ∃ entry, txn_data s !! key = Some (history_of s0 key ++ [entry]);
  over_untouched : ∀ key, key ∉ top → txn_data s !! key = txn_data s0 !! key
}.

(** No history entry is the empty string. *)
Definition history_nonempty (s : Database) : Prop :=
  ∀ key key_list, txn_data s !! key = Some key_list → Some EmptyString ∉ key_list.

(** The history a write of [entry] leaves under [key], in a layer whose
    touched set is [top]: the layer's own last entry is overwritten, or a
    new entry is appended. *)
Definition written_history (s : Database) (top : gset string) (key : string)
    (entry : option string) : list (option string) :=
  (if decide (key ∈ top) then removelast (history_of s key) else history_of s key)
  ++ [entry].

(** The cases of a call on a state that satisfies [handler_inv]: what the
    call gives back and the state it leaves. *)
Inductive effect (s : Database) : op → outcome Database answer → Prop :=
| effect_get key :
    effect s (GET key) (Return (AValue (merged_view s !! key)) s)
| effect_num_equal_to value :
    effect s (NUMEQUALTO value)
      (Return (ACount (Data.count (db_freq s) value + Data.count (txn_freq s) value)) s)
| effect_set_same key new_value :
    merged_view s !! key = Some new_value →
    effect s (SET key new_value) (Return ANone s)
| effect_set_direct key new_value :
    opened s = [] →
    db_data s !! key ≠ Some new_value →
    effect s (SET key new_value)
      (Return ANone (mkDatabase
         (mkData (<[key := new_value]> (db_data s))
            (Data.increase_freq
               (Data.decrease_freq (db_freq s) (db_data s !! key)) (Some new_value)))
         (transaction_handler s)))
| effect_set_layer key new_value L top s' :
    opened s = L ++ [top] →
    merged_view s !! key ≠ Some new_value →
    database s' = database s →
    opened s' = L ++ [top ∪ {[key]}] →
    txn_data s' = <[key := written_history s top key (Some new_value)]> (txn_data s) →
    txn_freq s' =
      Data.increase_freq
        (Data.decrease_freq (txn_freq s) (merged_view s !! key)) (Some new_value) →
    effect s (SET key new_value) (Return ANone s')
| effect_unset_direct key :
    opened s = [] →
    effect s (UNSET key) (Raise AttributeError s)
| effect_unset_absent key :
    opened s ≠ [] →
    merged_view s !! key = None →
    effect s (UNSET key) (Return ANone s)
| effect_unset_layer key L top s' :
    opened s = L ++ [top] →
    merged_view s !! key ≠ None →
    database s' = database s →
    opened s' = L ++ [top ∪ {[key]}] →
    txn_data s' = <[key := written_history s top key None]> (txn_data s) →
    txn_freq s' = Data.decrease_freq (txn_freq s) (merged_view s !! key) →
    effect s (UNSET key) (Return ANone s')
| effect_begin :
    effect s BEGIN (Return ANone (upd_opened (λ l, l ++ [∅]) s))
| effect_rollback_none :
    opened s = [] →
    effect s ROLLBACK (Return (ABool false) s)
| effect_rollback_single top :
    opened s = [top] →
    effect s ROLLBACK
      (Return (ABool true) (mkDatabase (database s) TransactionHandler.new))
| effect_rollback_nested L t top s' :
    opened s = (L ++ [t]) ++ [top] →
    handler_inv s' →
    database s' = database s →
    opened s' = L ++ [t] →
    (∀ key, txn_data s' !! key =
            if decide (key ∈ top) then popped_history (history_of s key)
            else txn_data s !! key) →
    effect s ROLLBACK (Return (ABool true) s')
| effect_commit_none :
    opened s = [] →
    effect s COMMIT (Return (ABool false) s)
| effect_commit s' :
    opened s ≠ [] →
    transaction_handler s' = TransactionHandler.new →
    (∀ key, db_data s' !! key =
            match txn_data s !! key with
            | Some key_list => committed (default None (last key_list))
            | None => db_data s !! key
            end) →
    (sparse (db_freq s) → sparse (db_freq s')) →
    (∀ v, Data.count (db_freq s') v =
          (Data.count (db_freq s) v + Data.count (txn_freq s) v)%Z) →
    effect s COMMIT (Return (ABool true) s').

(** The store's own frequency index counts the store's keys. *)
Definition store_inv (s : Database) : Prop :=
  ∀ v, Data.count (db_freq s) v = nkeys (db_data s) v.

(** ** Running inside transactions against running directly

    The calls both defects of the code leave alone: reads, and writes of a
    value that is not the empty string. *)
Definition plain_op (o : op) : Prop :=
  match o with
  | GET _ | NUMEQUALTO _ => True
  | SET _ value => value ≠ EmptyString
  | UNSET _ | BEGIN | ROLLBACK | COMMIT => False
  end.

(** State [t], inside transactions, shows what state [d], outside of any,
    holds. *)
Record shows (d t : Database) : Prop := {
  shows_direct_inv : handler_inv d;
  shows_direct_closed : opened d = [];
  shows_direct_sparse : sparse (db_freq d);
  shows_inv : handler_inv t;
  shows_open : opened t ≠ [];
  shows_sparse : sparse (db_freq t);
  shows_nonempty : history_nonempty t;
  shows_data : merged_view t = db_data d;
  shows_count : ∀ v,
    (Data.count (db_freq t) v + Data.count (txn_freq t) v)%Z = Data.count (db_freq d) v
}.

(** ** The dispatcher's rejection rule, as the specification words it

    Every line with a verb whose uppercased verb and argument count are not
    a pair of the table prints the diagnostic, leaves the database alone
    and lets the loop go on.  Stated of ASCII lines, on which [split] and
    [upper] are Python's. *)
Definition rejects_every_unlisted_pair : Prop :=
  ∀ (c : DBConsole.t) (line : string) (rest : list string)
    (field0 : string) (arguments : list string),
    DBConsole.stdin c = line :: rest →
    ascii_text line = true →
    line ≠ EmptyString →
    split line = field0 :: arguments →
    (upper field0, length arguments) ∉ DBConsole.valid_operations_arguments →
    DBConsole.read_from_stdin c =
    Return true
      (DBConsole.mk (DBConsole.database c) rest
         (DBConsole.stdout c ++ [Text "Invalid method or number of arguments"])).

(** ** The entry point and the tokens of a line *)

(** [main()]: a fresh console listening, in front of the given input. *)
Definition main (lines : list string) : outcome DBConsole.t unit :=
  DBConsole.listen (DBConsole.new lines).

(** Whether a string holds a character that [str.isspace] accepts. *)
Fixpoint has_space (w : string) : bool :=
  match w with
  | EmptyString => false
  | String c rest => is_space c || has_space rest
  end.

(** A token: not empty, and free of whitespace. *)
Definition token (w : string) : Prop := w ≠ EmptyString ∧ has_space w = false.

(** A token of an ASCII line: an ASCII string, so that the ASCII whitespace
    [has_space] looks for is all the whitespace there could be. *)
Definition ascii_token (w : string) : Prop := token w ∧ ascii_text w = true.

(** Two states to try things on: the store that holds [a = 1], and one
    open transaction in which [a] was set to 1. *)
Definition store_a1 : Database := final_state (exec (SET "a" "1") Database.new).
Definition layer_a1 : Database :=
  final_state (exec (SET "a" "1") (final_state (exec BEGIN Database.new))).

(** * Properties *)

#[global] Arguments Data.modify_freq : simpl never.
#[global] Arguments Data.increase_freq : simpl never.
#[global] Arguments Data.decrease_freq : simpl never.
#[global] Arguments exec : simpl never.

(** Unfold the monad, and the attribute updates. *)
Ltac unfold_monad := cbv [mbind M_bind mret M_ret gets modify raise].
Ltac unfold_upd :=
  unfold upd_txn_freq, upd_opened, upd_txn_data, upd_db_data, upd_db_freq.

(** Step through straight-line code on lists and dictionaries. *)
Ltac step_containers :=
  repeat first [ rewrite last_snoc | rewrite lookup_insert_eq
               | rewrite removelast_last | progress simpl ].

(** The cases of [effect], with names for what each brings. *)
Ltac effect_cases He :=
  destruct He as
    [ key | value | key new_value Hsame | key new_value Hop Hdiff
    | key new_value L top s' Hop Hdiff Hdb Hop' Htd Htf
    | key Hop | key Hop Hnone
    | key L top s' Hop Hsome Hdb Hop' Htd Htf
    | | Hop | top Hop
    | L t top s' Hop Hinv' Hdb Hop' Htd
    | Hop | s' Hop Hth Hdd Hsp Hc ]; simpl.


(** ** The frequency index *)

Section frequency_index.
Implicit Types (f : gmap string Z) (v w : string) (o : option string) (n : Z).

Lemma count_modify_freq f o n w :
  Data.count (Data.modify_freq f o n) w = (Data.count f w + n * ind o w)%Z.
Proof.
  unfold Data.modify_freq, Data.count, ind. destruct o as [v|]; simpl.
  - rewrite lookup_insert_eq.
    destruct (decide (Some v = Some w)) as [[= ->]|Hne].
    + case_bool_decide as H0.
      * rewrite lookup_delete_eq. simpl. injection H0 as H0.
        unfold Data.count in H0. lia.
      * rewrite lookup_insert_eq. simpl. lia.
    + assert (v ≠ w) by congruence.
      case_bool_decide.
      * rewrite lookup_delete_ne, lookup_insert_ne by done. lia.
      * rewrite lookup_insert_ne by done. lia.
  - destruct (decide (None = Some w)); [done | lia].
Qed.

Lemma sparse_empty : sparse ∅.
Proof. intros v. by rewrite lookup_empty. Qed.

Lemma sparse_modify_freq f o n : sparse f → sparse (Data.modify_freq f o n).
Proof.
  intros Hf w. unfold Data.modify_freq. destruct o as [v|]; [|apply Hf].
  simpl. rewrite lookup_insert_eq.
  destruct (decide (v = w)) as [->|Hne].
  - case_bool_decide as H0.
    + by rewrite lookup_delete_eq.
    + rewrite lookup_insert_eq. congruence.
  - case_bool_decide.
    + rewrite lookup_delete_ne, lookup_insert_ne by done. apply Hf.
    + rewrite lookup_insert_ne by done. apply Hf.
Qed.

Lemma sparse_count_eq f1 f2 :
  sparse f1 → sparse f2 → (∀ v, Data.count f1 v = Data.count f2 v) → f1 = f2.
Proof.
  intros H1 H2 Hc. apply map_eq. intros v.
  specialize (Hc v). specialize (H1 v). specialize (H2 v).
  unfold Data.count in Hc.
  destruct (f1 !! v) as [a|], (f2 !! v) as [b|]; simpl in Hc; congruence.
Qed.

Lemma sparse_count_empty f : sparse f → (∀ v, Data.count f v = 0%Z) → f = ∅.
Proof.
  intros H1 Hc. apply sparse_count_eq; [done | apply sparse_empty |].
  intros v. rewrite Hc. unfold Data.count. by rewrite lookup_empty.
Qed.

End frequency_index.

(** ** Counting the keys that hold a value *)

Section counting.
Implicit Types (m : gmap string string) (k v x : string) (o : option string).

Lemma ind_None v : ind None v = 0%Z.
Proof. unfold ind. by destruct (decide _). Qed.

Lemma ind_Some_eq v : ind (Some v) v = 1%Z.
Proof. unfold ind. by destruct (decide _). Qed.

Lemma ind_Some_ne x v : x ≠ v → ind (Some x) v = 0%Z.
Proof. unfold ind. destruct (decide _); congruence. Qed.

Lemma nkeys_empty v : nkeys ∅ v = 0%Z.
Proof. unfold nkeys. by rewrite map_filter_empty, map_size_empty. Qed.

Lemma nkeys_insert_fresh m k x v :
  m !! k = None → nkeys (<[k:=x]> m) v = (nkeys m v + ind (Some x) v)%Z.
Proof.
  intros Hk. unfold nkeys. rewrite map_filter_insert. simpl.
  destruct (decide (x = v)) as [->|Hne].
  - rewrite map_size_insert_None, ind_Some_eq; [lia|].
    apply map_lookup_filter_None. by left.
  - rewrite (delete_id m k), ind_Some_ne by done. lia.
Qed.

Lemma nkeys_delete m k v :
  nkeys (delete k m) v = (nkeys m v - ind (m !! k) v)%Z.
Proof.
  destruct (m !! k) as [y|] eqn:Hk.
  - rewrite <- (insert_delete_id m k y) at 2 by done.
    rewrite nkeys_insert_fresh by apply lookup_delete_eq. lia.
  - rewrite delete_id, ind_None by done. lia.
Qed.

Lemma nkeys_insert m k x v :
  nkeys (<[k:=x]> m) v = (nkeys m v - ind (m !! k) v + ind (Some x) v)%Z.
Proof.
  rewrite <- insert_delete_eq.
  rewrite nkeys_insert_fresh by apply lookup_delete_eq.
  rewrite nkeys_delete. lia.
Qed.

(** Two mappings that differ at one key only. *)
Lemma nkeys_change m m' k v :
  (∀ j, j ≠ k → m' !! j = m !! j) →
  nkeys m' v = (nkeys m v - ind (m !! k) v + ind (m' !! k) v)%Z.
Proof.
  intros Hother.
  assert (m' = match m' !! k with Some x => <[k:=x]> m | None => delete k m end) as ->.
  { apply map_eq. intros j. destruct (decide (j = k)) as [->|Hne].
    - destruct (m' !! k) eqn:E.
      + by rewrite lookup_insert_eq.
      + by rewrite lookup_delete_eq.
    - rewrite (Hother j Hne). destruct (m' !! k).
      + by rewrite lookup_insert_ne.
      + by rewrite lookup_delete_ne. }
  destruct (m' !! k) as [x|] eqn:E.
  - by rewrite nkeys_insert, lookup_insert_eq.
  - rewrite nkeys_delete, lookup_delete_eq, ind_None. lia.
Qed.

End counting.

(** ** The handler's reads and writes

    What [get], [set] and [unset] of the transaction handler do to the
    state, and that a write keeps the handler's invariant. *)

Lemma merged_view_lookup s k : merged_view s !! k = overlay (db_data s !! k) (txn_data s !! k).
Proof. unfold merged_view. rewrite lookup_merge. by destruct (db_data s !! k), (txn_data s !! k). Qed.

Lemma is_active_spec s : TransactionHandler.is_active s = Return (bool_decide (opened s ≠ [])) s.
Proof.
  unfold TransactionHandler.is_active, TransactionHandler.get_active_size. unfold_monad.
  by destruct (opened s).
Qed.

Lemma handler_get_spec s k :
  TransactionHandler.get k s =
  Return (match last (history_of s k) with Some x => (x, true) | None => (None, false) end) s.
Proof.
  unfold TransactionHandler.get, history_of. unfold_monad.
  by destruct (last _).
Qed.

Lemma get_spec s k : (opened s = [] → txn_data s = ∅) → Database.get k s = Return (merged_view s !! k) s.
Proof.
  intros H. rewrite merged_view_lookup.
  unfold Database.get, Database.is_transaction_active.
  unfold mbind at 1, M_bind at 1. rewrite is_active_spec.
  case_bool_decide as Hop.
  - unfold mbind, M_bind. rewrite handler_get_spec. unfold history_of, overlay.
    destruct (txn_data s !! k) as [l|]; simpl; [|done].
    by destruct (last l).
  - rewrite H by done. rewrite lookup_empty. done.
Qed.

Lemma last_snoc_inv {A} (l : list A) : l ≠ [] → ∃ l' x, l = l' ++ [x].
Proof.
  intros H. destruct (exists_last H) as (l' & x & ->). eauto.
Qed.


Lemma handler_set_spec s L top k old new :
  opened s = L ++ [top] →
  (k ∈ top → history_of s k ≠ []) →
  ∃ s', TransactionHandler.set k old new s = Return tt s' ∧
    database s' = database s ∧
    opened s' = L ++ [top ∪ {[k]}] ∧
    txn_data s' = <[k := written_history s top k (Some new)]> (txn_data s) ∧
    txn_freq s' = Data.increase_freq (Data.decrease_freq (txn_freq s) old) (Some new).
Proof.
  intros Hop Hne. unfold written_history. destruct s as [db [[td tf] op]]. simpl in *. subst op.
  unfold TransactionHandler.set. unfold mbind at 1, M_bind at 1.
  rewrite is_active_spec. simpl. rewrite bool_decide_eq_true_2 by (by destruct L).
  unfold TransactionHandler.opened_last, TransactionHandler.key_list_store_last,
    TransactionHandler.key_list_append, TransactionHandler.latest_add,
    TransactionHandler.opened_last, TransactionHandler.subscript.
  unfold_monad. simpl. rewrite last_snoc. unfold history_of in *. simpl in *.
  destruct (td !! k) as [l|] eqn:Hk; simpl in *.
  - try rewrite (bool_decide_eq_true_2 (is_Some _)) by eauto. simpl.
    destruct (decide (k ∈ top)) as [Hin|Hin].
    + rewrite (bool_decide_eq_true_2 (k ∈ top)) by done. simpl. rewrite Hk.
      destruct l as [|x l]; [by destruct Hne|].
      eexists; split; [reflexivity|]. unfold upd_txn_freq, upd_opened, upd_txn_data; simpl.
      rewrite ?removelast_last. repeat split; try done.
      f_equal. f_equal. set_solver.
    + rewrite (bool_decide_eq_false_2 (k ∈ top)) by done. simpl. rewrite Hk. simpl.
      rewrite ?last_snoc, ?removelast_last.
      eexists; split; [reflexivity|]. unfold upd_txn_freq, upd_opened, upd_txn_data; simpl.
      rewrite ?removelast_last. repeat split; try done.
  - try rewrite (bool_decide_eq_false_2 (is_Some _)) by (intros [? ?]; done). simpl.
    destruct (decide (k ∈ top)) as [Hin|Hin]; [by destruct Hne|].
    rewrite (bool_decide_eq_false_2 (k ∈ top)) by done. simpl. rewrite ?lookup_insert_eq. simpl.
    rewrite ?last_snoc, ?removelast_last, ?insert_insert_eq.
    eexists; split; [reflexivity|]. unfold upd_txn_freq, upd_opened, upd_txn_data; simpl.
      rewrite ?removelast_last. repeat split; try done.
    by rewrite insert_insert_eq.
Qed.

Lemma handler_unset_spec s L top k old :
  opened s = L ++ [top] →
  old ≠ None →
  (k ∈ top → history_of s k ≠ []) →
  ∃ s', TransactionHandler.unset k old s = Return tt s' ∧
    database s' = database s ∧
    opened s' = L ++ [top ∪ {[k]}] ∧
    txn_data s' = <[k := written_history s top k None]> (txn_data s) ∧
    txn_freq s' = Data.decrease_freq (txn_freq s) old.
Proof.
  intros Hop Hold Hne. unfold written_history. destruct s as [db [[td tf] op]]. simpl in *. subst op.
  unfold TransactionHandler.unset. unfold mbind at 1, M_bind at 1.
  rewrite is_active_spec. simpl. rewrite bool_decide_eq_true_2 by (by destruct L).
  rewrite (bool_decide_eq_true_2 (old ≠ None)) by done. simpl.
  unfold TransactionHandler.opened_last, TransactionHandler.key_list_store_last,
    TransactionHandler.key_list_append, TransactionHandler.latest_add,
    TransactionHandler.opened_last, TransactionHandler.subscript.
  unfold_monad. unfold upd_txn_freq, upd_opened, upd_txn_data. simpl.
  rewrite last_snoc. unfold history_of in *. simpl in *.
  destruct (decide (k ∈ top)) as [Hin|Hin].
  - rewrite (bool_decide_eq_true_2 (k ∈ top)) by done. simpl.
    rewrite lookup_insert_eq.
    destruct (default [] (td !! k)) as [|x l] eqn:E; [by destruct Hne|].
    eexists; split; [reflexivity|]. simpl.
    rewrite insert_insert_eq. repeat split; try done.
    f_equal. f_equal. set_solver.
  - rewrite (bool_decide_eq_false_2 (k ∈ top)) by done.
    step_containers.
    eexists; split; [reflexivity|]. simpl.
    rewrite insert_insert_eq. repeat split; try done.
Qed.

Lemma layers_touching_snoc s s' L top top' k :
  opened s = L ++ [top] → opened s' = L ++ [top'] →
  layers_touching s' k =
  (layers_touching s k + (if decide (k ∈ top') then 1 else 0) - (if decide (k ∈ top) then 1 else 0))%nat.
Proof.
  intros H H'. unfold layers_touching. rewrite H, H'.
  rewrite !filter_app, !length_app. 
  rewrite !filter_cons, !filter_nil.
  destruct (decide (k ∈ top)), (decide (k ∈ top')); simpl; lia.
Qed.

Lemma removelast_snoc_length {A} (l : list A) x :
  l ≠ [] → length (removelast l ++ [x]) = length l.
Proof.
  intros H. destruct (last_snoc_inv l H) as (l' & y & ->).
  rewrite removelast_last, !length_app. done.
Qed.

Lemma overlay_snoc o l x : overlay o (Some (l ++ [x])) = x.
Proof. unfold overlay. by rewrite last_snoc. Qed.

Lemma count_increase f o v : Data.count (Data.increase_freq f o) v = (Data.count f v + ind o v)%Z.
Proof. unfold Data.increase_freq. rewrite count_modify_freq. lia. Qed.
Lemma count_decrease f o v : Data.count (Data.decrease_freq f o) v = (Data.count f v - ind o v)%Z.
Proof. unfold Data.decrease_freq. rewrite count_modify_freq. lia. Qed.

Lemma write_inv s s' L top k entry :
  handler_inv s → opened s = L ++ [top] → database s' = database s →
  opened s' = L ++ [top ∪ {[k]}] →
  txn_data s' = <[k := written_history s top k entry]> (txn_data s) →
  sparse (txn_freq s') →
  (∀ v, Data.count (txn_freq s') v =
        (Data.count (txn_freq s) v - ind (merged_view s !! k) v + ind entry v)%Z) →
  handler_inv s'.
Proof.
  intros [Hlen Hne Hsp Hd] Hop Hdb Hop' Htd Hsp' Hc. unfold written_history in Htd. split.
  - intros j. rewrite (layers_touching_snoc s s' L top (top ∪ {[k]}) j Hop Hop').
    rewrite <- Hlen. unfold history_of at 1. rewrite Htd.
    destruct (decide (j = k)) as [->|Hjk].
    + rewrite lookup_insert_eq. simpl.
      rewrite (decide_True (P := k ∈ top ∪ {[k]})) by set_solver.
      destruct (decide (k ∈ top)) as [Hin|Hin].
      * assert (history_of s k ≠ []) as Hk.
        { intros E. specialize (Hlen k). rewrite E in Hlen. unfold layers_touching in Hlen.
          rewrite Hop, filter_app, length_app, filter_cons in Hlen.
          rewrite decide_True in Hlen by done. simpl in Hlen. lia. }
        rewrite removelast_snoc_length by done. lia.
      * rewrite length_app. simpl. lia.
    + rewrite lookup_insert_ne by done. fold (history_of s j).
      destruct (decide (j ∈ top)) as [Hin|Hin].
      * rewrite decide_True by set_solver.
        assert (0 < length (history_of s j))%nat; [|lia].
        rewrite Hlen. unfold layers_touching. 
        rewrite Hop, filter_app, length_app, filter_cons, decide_True by done. simpl. lia.
      * rewrite decide_False by set_solver. lia.
  - intros j. rewrite Htd. destruct (decide (j = k)) as [->|Hjk].
    + rewrite lookup_insert_eq. intros [= E]. by apply app_eq_nil in E as [_ ?].
    + rewrite lookup_insert_ne by done. apply Hne.
  - done.
  - intros v. rewrite Hc, Hd, Hdb.
    rewrite (nkeys_change (merged_view s) (merged_view s') k v).
    + replace (merged_view s' !! k) with entry; [lia|].
      rewrite (merged_view_lookup s'), Htd, lookup_insert_eq. by rewrite overlay_snoc.
    + intros j Hj. rewrite !merged_view_lookup, Hdb, Htd. by rewrite lookup_insert_ne.
Qed.

(** ** Rollback

    One round of the loop undoes one key; the whole loop undoes the popped
    layer and gives the handler's invariant back. *)

Lemma handler_inv_pending s : handler_inv s ↔ pending_inv [] s.
Proof.
  split; intros [H1 H2 H3 H4]; split; try done; intros k; rewrite H1.
  - rewrite decide_False by set_solver. lia.
  - rewrite decide_False by set_solver. lia.
Qed.

Lemma inv_no_layers s :
  handler_inv s → opened s = [] → txn_data s = ∅ ∧ txn_freq s = ∅.
Proof.
  intros [Hlen Hne Hsp Hd] Hop.
  assert (txn_data s = ∅) as Htd.
  { apply map_eq. intros k. rewrite lookup_empty.
    specialize (Hlen k). specialize (Hne k). unfold history_of, layers_touching in Hlen.
    rewrite Hop in Hlen. simpl in Hlen.
    destruct (txn_data s !! k) as [[|x l]|]; simpl in *; done. }
  split; [done|].
  apply sparse_count_empty; [done|]. intros v. rewrite Hd.
  replace (merged_view s) with (db_data s); [lia|].
  apply map_eq. intros k. rewrite merged_view_lookup, Htd, lookup_empty. done.
Qed.

Lemma rollback_key_spec s k l x :
  txn_data s !! k = Some (l ++ [x]) →
  ∃ s', TransactionHandler.rollback_key k s = Return tt s' ∧
    database s' = database s ∧ opened s' = opened s ∧
    txn_data s' = match l with
                  | [] => delete k (txn_data s)
                  | _ => <[k := l]> (txn_data s)
                  end ∧
    txn_freq s' =
      Data.decrease_freq
        (Data.increase_freq (txn_freq s) (overlay (db_data s !! k) (Some l))) x.
Proof.
  intros Hk. destruct s as [db [[td tf] op]]. simpl in *.
  unfold TransactionHandler.rollback_key, TransactionHandler.key_list_pop,
    TransactionHandler.get, TransactionHandler.subscript.
  unfold_monad. unfold_upd. simpl. rewrite Hk.
  step_containers.
  unfold overlay.
  destruct (last l) as [y|] eqn:El.
  - simpl. rewrite lookup_insert_eq. destruct l as [|z l]; [done|].
    eexists; split; [reflexivity|]. simpl. repeat split; try done.
  - simpl. rewrite lookup_insert_eq. destruct l as [|z l].
    + eexists; split; [reflexivity|]. simpl. repeat split; try done.
      by rewrite delete_insert_eq.
    + eexists; split; [reflexivity|]. simpl. repeat split; try done.
Qed.

Lemma rollback_key_pending s k ks :
  pending_inv (k :: ks) s → k ∉ ks →
  ∃ s', TransactionHandler.rollback_key k s = Return tt s' ∧
    pending_inv ks s' ∧
    database s' = database s ∧ opened s' = opened s ∧
    txn_data s' !! k = popped_history (history_of s k) ∧
    (∀ j, j ≠ k → txn_data s' !! j = txn_data s !! j).
Proof.
  intros [Hlen Hne Hsp Hd] Hk.
  assert (history_of s k ≠ []) as Hnil.
  { intros E. specialize (Hlen k). rewrite E, decide_True in Hlen by set_solver.
    simpl in Hlen. lia. }
  destruct (last_snoc_inv _ Hnil) as (l & x & El).
  assert (txn_data s !! k = Some (l ++ [x])) as Hlk.
  { unfold history_of in El. destruct (txn_data s !! k); simpl in *; [congruence|]. by destruct l. }
  destruct (rollback_key_spec s k l x Hlk) as (s' & Hrun & Hdb & Hop & Htd & Htf).
  assert (∀ j, j ≠ k → txn_data s' !! j = txn_data s !! j) as Hother.
  { intros j Hj. rewrite Htd. destruct l.
    - by rewrite lookup_delete_ne.
    - by rewrite lookup_insert_ne. }
  assert (txn_data s' !! k = popped_history (history_of s k)) as Hself.
  { rewrite El. unfold popped_history. rewrite removelast_last, Htd. destruct l.
    - by rewrite lookup_delete_eq.
    - by rewrite lookup_insert_eq. }
  exists s'. repeat split; try done.
  - intros j. unfold layers_touching. rewrite Hop. fold (layers_touching s j).
    destruct (decide (j = k)) as [->|Hj].
    + unfold history_of at 1. rewrite Hself, El. unfold popped_history.
      rewrite removelast_last, decide_False by done.
      specialize (Hlen k). rewrite El, decide_True, length_app in Hlen by set_solver.
      simpl in Hlen. destruct l; simpl in *; lia.
    + unfold history_of at 1. rewrite Hother by done. fold (history_of s j).
      rewrite Hlen. destruct (decide (j ∈ k :: ks)), (decide (j ∈ ks)); set_solver.
  - intros j. destruct (decide (j = k)) as [->|Hj].
    + rewrite Hself. unfold popped_history. by destruct (removelast _).
    + rewrite Hother by done. apply Hne.
  - rewrite Htf. by do 2 apply sparse_modify_freq.
  - intros v. rewrite Htf, count_decrease, count_increase, Hd, Hdb.
    rewrite (nkeys_change (merged_view s) (merged_view s') k v).
    + rewrite !merged_view_lookup, Hdb, Hlk, overlay_snoc, Hself, El.
      unfold popped_history. rewrite removelast_last.
      destruct l; simpl; lia.
    + intros j Hj. rewrite !merged_view_lookup, Hdb, Hother; done.
Qed.

Lemma rollback_loop_spec ks : ∀ s,
  NoDup ks → pending_inv ks s →
  ∃ s', for_each ks TransactionHandler.rollback_key s = Return tt s' ∧
    handler_inv s' ∧
    database s' = database s ∧ opened s' = opened s ∧
    (∀ j, txn_data s' !! j =
          if decide (j ∈ ks) then popped_history (history_of s j) else txn_data s !! j).
Proof.
  induction ks as [|k ks IH]; intros s Hnd Hp.
  - exists s. simpl. split_and!; try done.
    + by apply handler_inv_pending.
  - apply NoDup_cons in Hnd as [Hk Hnd].
    destruct (rollback_key_pending s k ks Hp Hk) as (s1 & Hrun & Hp1 & Hdb & Hop & Hself & Hother).
    destruct (IH s1 Hnd Hp1) as (s' & Hrun' & Hinv & Hdb' & Hop' & Htd).
    exists s'. simpl. unfold mbind, M_bind. rewrite Hrun.
    split_and!; try done; try congruence.
    intros j. rewrite Htd. destruct (decide (j = k)) as [->|Hj].
    + rewrite decide_False, decide_True by set_solver. done.
    + unfold history_of. rewrite Hother by done.
      destruct (decide (j ∈ ks)), (decide (j ∈ k :: ks)); set_solver.
Qed.

Lemma handler_rollback_nested s L t top :
  handler_inv s → opened s = (L ++ [t]) ++ [top] →
  ∃ s', TransactionHandler.rollback s = Return tt s' ∧
    handler_inv s' ∧
    database s' = database s ∧ opened s' = L ++ [t] ∧
    (∀ j, txn_data s' !! j =
          if decide (j ∈ top) then popped_history (history_of s j) else txn_data s !! j).
Proof.
  intros Hinv Hop.
  set (s1 := upd_opened (λ l, removelast l) s).
  assert (pending_inv (elements top) s1) as Hp.
  { destruct Hinv as [Hlen Hne Hsp Hd]. split; try done.
    intros j. unfold history_of, s1. simpl. fold (history_of s j). rewrite Hlen.
    unfold layers_touching. simpl. rewrite Hop, removelast_last.
    rewrite (filter_app _ (L ++ [t])), length_app, filter_cons, filter_nil.
    destruct (decide (j ∈ top)), (decide (j ∈ elements top)); set_solver. }
  destruct (rollback_loop_spec (elements top) s1 (NoDup_elements top) Hp)
    as (s' & Hrun & Hinv' & Hdb & Hop' & Htd).
  exists s'. split.
  - unfold TransactionHandler.rollback, TransactionHandler.is_one_active,
      TransactionHandler.get_active_size, TransactionHandler.opened_pop,
      TransactionHandler.opened_last.
    unfold mbind at 1, M_bind at 1. rewrite is_active_spec.
    rewrite bool_decide_eq_true_2 by (rewrite Hop; by destruct (L ++ [t])).
    unfold_monad. rewrite Hop, !length_app. simpl.
    replace (length L + 1 + 1 =? 1) with false by (symmetry; apply Nat.eqb_neq; lia).
    rewrite Hop, last_snoc. exact Hrun.
  - split_and!; try done.
    + rewrite Hop'. unfold s1. simpl. by rewrite Hop, removelast_last.
    + intros j. rewrite Htd. unfold s1, history_of. simpl.
      destruct (decide (j ∈ top)), (decide (j ∈ elements top)); set_solver.
Qed.

Lemma handler_rollback_single s top :
  opened s = [top] →
  TransactionHandler.rollback s = Return tt (mkDatabase (database s) TransactionHandler.new).
Proof.
  intros Hop. unfold TransactionHandler.rollback, TransactionHandler.is_one_active,
      TransactionHandler.get_active_size, TransactionHandler.clear.
  unfold mbind at 1, M_bind at 1. rewrite is_active_spec.
  rewrite bool_decide_eq_true_2 by (by rewrite Hop).
  unfold_monad. by rewrite Hop.
Qed.

(** ** Commit

    The first loop applies the last history entry of every key to the
    store, the second folds the aggregate frequencies into the store's
    index. *)

Lemma commit_item_spec s k l0 l x :
  txn_data s !! k = Some (l ++ [x]) →
  ∃ s', TransactionHandler.commit_item (k, l0) s = Return tt s' ∧
    db_freq s' = db_freq s ∧ txn_freq s' = txn_freq s ∧ opened s' = opened s ∧
    txn_data s' = <[k := l]> (txn_data s) ∧
    db_data s' !! k = committed x ∧
    (∀ j, j ≠ k → db_data s' !! j = db_data s !! j).
Proof.
  intros Hk. destruct s as [[dd df] [[td tf] op]]. simpl in *.
  unfold TransactionHandler.commit_item, TransactionHandler.key_list_pop,
    TransactionHandler.subscript, committed.
  unfold_monad. unfold_upd. simpl. rewrite Hk, last_snoc, removelast_last. simpl.
  destruct x as [v|]; simpl.
  - case_bool_decide.
    + eexists; split; [reflexivity|]. simpl. split_and!; try done.
      * by rewrite lookup_insert_eq.
      * intros j Hj. by rewrite lookup_insert_ne.
    + eexists; split; [reflexivity|]. simpl. split_and!; try done.
      * by rewrite lookup_delete_eq.
      * intros j Hj. by rewrite lookup_delete_ne.
  - eexists; split; [reflexivity|]. simpl. split_and!; try done.
    * by rewrite lookup_delete_eq.
    * intros j Hj. by rewrite lookup_delete_ne.
Qed.

Lemma commit_items_spec items : ∀ s,
  NoDup items.*1 →
  (∀ k l, (k, l) ∈ items → txn_data s !! k = Some l ∧ l ≠ []) →
  ∃ s', for_each items TransactionHandler.commit_item s = Return tt s' ∧
    db_freq s' = db_freq s ∧ txn_freq s' = txn_freq s ∧ opened s' = opened s ∧
    (∀ j, db_data s' !! j =
          match (list_to_map items : gmap string (list (option string))) !! j with
          | Some l => committed (default None (last l))
          | None => db_data s !! j
          end).
Proof.
  induction items as [|[k l] items IH]; intros s Hnd Hitems.
  - exists s. simpl. split_and!; try done.
  - simpl in Hnd. apply NoDup_cons in Hnd as [Hk Hnd].
    destruct (Hitems k l) as [Hkl Hl]; [set_solver|].
    destruct (last_snoc_inv l Hl) as (l' & x & ->).
    destruct (commit_item_spec s k (l' ++ [x]) l' x Hkl)
      as (s1 & Hrun & Hdf & Htf & Hop & Htd & Hself & Hother).
    destruct (IH s1 Hnd) as (s' & Hrun' & Hdf' & Htf' & Hop' & Hdd).
    { intros k' l0 Hin. rewrite Htd.
      assert (k' ≠ k).
      { intros ->. apply Hk. apply list_elem_of_fmap. by exists (k, l0). }
      rewrite lookup_insert_ne by done. apply Hitems. set_solver. }
    exists s'. simpl. unfold mbind, M_bind. rewrite Hrun.
    split_and!; try done; try congruence.
    intros j. rewrite Hdd. destruct (decide (j = k)) as [->|Hj].
    + rewrite lookup_insert_eq.
      rewrite (not_elem_of_list_to_map_1 _ k) by done.
      rewrite Hself, last_snoc. done.
    + rewrite lookup_insert_ne by done. rewrite Hother by done. done.
Qed.

Lemma commit_freqs_spec freqs : ∀ s,
  NoDup freqs.*1 →
  ∃ s', for_each freqs TransactionHandler.commit_freq s = Return tt s' ∧
    db_data s' = db_data s ∧ transaction_handler s' = transaction_handler s ∧
    (sparse (db_freq s) → sparse (db_freq s')) ∧
    (∀ v, Data.count (db_freq s') v =
          (Data.count (db_freq s) v + Data.count (list_to_map freqs) v)%Z).
Proof.
  induction freqs as [|[w n] freqs IH]; intros s Hnd.
  - exists s. simpl. split_and!; try done.
    intros v. unfold Data.count at 3. rewrite lookup_empty. simpl. lia.
  - simpl in Hnd. apply NoDup_cons in Hnd as [Hw Hnd].
    set (s1 := upd_db_freq (λ f, Data.modify_freq f (Some w) n) s).
    destruct (IH s1 Hnd) as (s' & Hrun' & Hdd & Hth & Hsp & Hc).
    exists s'. simpl. unfold mbind, M_bind. unfold TransactionHandler.commit_freq at 1.
    unfold_monad. simpl. fold s1. rewrite Hrun'. split_and!; try done.
    + intros H. apply Hsp. unfold s1. simpl. by apply sparse_modify_freq.
    + intros v. rewrite Hc. unfold s1. simpl. rewrite count_modify_freq.
      unfold Data.count at 4. destruct (decide (v = w)) as [->|Hv].
      * rewrite lookup_insert_eq, ind_Some_eq. simpl.
        unfold Data.count at 2. rewrite (not_elem_of_list_to_map_1 _ w) by done.
        simpl. lia.
      * rewrite lookup_insert_ne, ind_Some_ne by done. unfold Data.count at 2. lia.
Qed.

Lemma handler_commit_spec s :
  handler_inv s → opened s ≠ [] →
  ∃ s', TransactionHandler.commit s = Return tt s' ∧
    transaction_handler s' = TransactionHandler.new ∧
    (∀ j, db_data s' !! j =
          match txn_data s !! j with
          | Some l => committed (default None (last l))
          | None => db_data s !! j
          end) ∧
    (sparse (db_freq s) → sparse (db_freq s')) ∧
    (∀ v, Data.count (db_freq s') v =
          (Data.count (db_freq s) v + Data.count (txn_freq s) v)%Z).
Proof.
  intros Hinv Hop.
  destruct (commit_items_spec (map_to_list (txn_data s)) s)
    as (s1 & Hrun1 & Hdf1 & Htf1 & Hop1 & Hdd1).
  { apply NoDup_fst_map_to_list. }
  { intros k l Hin. apply elem_of_map_to_list in Hin. split; [done|].
    intros ->. by apply (inv_nonempty s Hinv k). }
  destruct (commit_freqs_spec (map_to_list (txn_freq s)) s1)
    as (s2 & Hrun2 & Hdd2 & Hth2 & Hsp2 & Hc2).
  { apply NoDup_fst_map_to_list. }
  exists (mkDatabase (database s2) TransactionHandler.new). split.
  - unfold TransactionHandler.commit, TransactionHandler.clear.
    unfold mbind at 1, M_bind at 1. rewrite is_active_spec.
    rewrite bool_decide_eq_true_2 by done.
    unfold_monad. rewrite Hrun1, Htf1, Hrun2. done.
  - simpl. split_and!; try done.
    + intros j. rewrite Hdd2, Hdd1, list_to_map_to_list. done.
    + rewrite <- Hdf1. done.
    + intros v. rewrite Hc2, Hdf1, list_to_map_to_list. done.
Qed.

(** ** The methods of [Database] *)

Lemma inv_get s k : handler_inv s → Database.get k s = Return (merged_view s !! k) s.
Proof. intros H. apply get_spec. intros Hop. by apply inv_no_layers. Qed.

Lemma inv_touched_nonempty s L top k :
  handler_inv s → opened s = L ++ [top] → k ∈ top → history_of s k ≠ [].
Proof.
  intros Hinv Hop Hin E. pose proof (inv_length s Hinv k) as Hlen.
  rewrite E in Hlen. unfold layers_touching in Hlen.
  rewrite Hop, filter_app, length_app, filter_cons, decide_True in Hlen by done.
  simpl in Hlen. lia.
Qed.

Lemma inv_cleared d : handler_inv (mkDatabase d TransactionHandler.new).
Proof.
  split; simpl.
  - done.
  - intros k. by rewrite lookup_empty.
  - apply sparse_empty.
  - intros v. unfold Data.count. rewrite lookup_empty. simpl.
    replace (merged_view _) with (data d); [lia|].
    apply map_eq. intros k. rewrite merged_view_lookup. simpl. by rewrite lookup_empty.
Qed.

Lemma inv_no_layers_handler s :
  handler_inv s → opened s = [] → transaction_handler s = TransactionHandler.new.
Proof.
  intros Hinv Hop. destruct (inv_no_layers s Hinv Hop) as [Htd Htf].
  destruct s as [db [[td tf] op]]. simpl in *. by subst.
Qed.

Lemma is_transaction_active_spec s :
  Database.is_transaction_active s = Return (bool_decide (opened s ≠ [])) s.
Proof. apply is_active_spec. Qed.

(** [set] when the value changes and no transaction is open. *)
Lemma database_set_direct s k new :
  handler_inv s → opened s = [] → db_data s !! k ≠ Some new →
  Database.set k new s =
  Return tt (mkDatabase
    (mkData (<[k := new]> (db_data s))
            (Data.increase_freq (Data.decrease_freq (db_freq s) (db_data s !! k)) (Some new)))
    (transaction_handler s)).
Proof.
  intros Hinv Hop Hne. unfold Database.set. unfold mbind at 1, M_bind at 1.
  rewrite inv_get by done.
  assert (merged_view s !! k = db_data s !! k) as ->.
  { rewrite merged_view_lookup. destruct (inv_no_layers s Hinv Hop) as [-> _].
    by rewrite lookup_empty. }
  rewrite bool_decide_eq_true_2 by done.
  unfold mbind at 1, M_bind at 1. rewrite is_transaction_active_spec.
  rewrite bool_decide_eq_false_2 by (intros H; by apply H).
  unfold_monad. unfold_upd. simpl. done.
Qed.

(** [set] when the value changes and a transaction is open. *)
Lemma database_set_layer s L top k new :
  handler_inv s → opened s = L ++ [top] → merged_view s !! k ≠ Some new →
  ∃ s', Database.set k new s = Return tt s' ∧
    database s' = database s ∧
    opened s' = L ++ [top ∪ {[k]}] ∧
    txn_data s' = <[k := written_history s top k (Some new)]> (txn_data s) ∧
    txn_freq s' = Data.increase_freq
                    (Data.decrease_freq (txn_freq s) (merged_view s !! k)) (Some new).
Proof.
  intros Hinv Hop Hne.
  destruct (handler_set_spec s L top k (merged_view s !! k) new Hop) as (s' & Hrun & H).
  { by apply (inv_touched_nonempty s L top). }
  exists s'. split; [|done].
  unfold Database.set. unfold mbind at 1, M_bind at 1.
  rewrite inv_get by done. rewrite bool_decide_eq_true_2 by done.
  unfold mbind at 1, M_bind at 1. rewrite is_transaction_active_spec.
  rewrite bool_decide_eq_true_2 by (rewrite Hop; by destruct L).
  done.
Qed.

Lemma database_set_same s k new :
  returned (Database.get k s) = Some (Some new) → Database.set k new s = Return tt s.
Proof.
  intros Hget. unfold Database.set. unfold mbind at 1, M_bind at 1.
  assert (∃ v, Database.get k s = Return v s) as [v Hv].
  { unfold Database.get, Database.is_transaction_active. unfold mbind at 1, M_bind at 1.
    rewrite is_active_spec. case_bool_decide.
    - unfold mbind, M_bind. rewrite handler_get_spec.
      destruct (last _); unfold_monad; eauto.
    - unfold_monad. eauto. }
  rewrite Hv in *. simpl in Hget. injection Hget as ->.
  by rewrite bool_decide_eq_false_2 by (intros H; by apply H).
Qed.

(** [unset] when a transaction is open and the key has a value. *)
Lemma database_unset_layer s L top k :
  handler_inv s → opened s = L ++ [top] → merged_view s !! k ≠ None →
  ∃ s', Database.unset k s = Return tt s' ∧
    database s' = database s ∧
    opened s' = L ++ [top ∪ {[k]}] ∧
    txn_data s' = <[k := written_history s top k None]> (txn_data s) ∧
    txn_freq s' = Data.decrease_freq (txn_freq s) (merged_view s !! k).
Proof.
  intros Hinv Hop Hne.
  destruct (handler_unset_spec s L top k (merged_view s !! k) Hop Hne) as (s' & Hrun & H).
  { by apply (inv_touched_nonempty s L top). }
  exists s'. split; [|done].
  unfold Database.unset. unfold mbind at 1, M_bind at 1.
  rewrite inv_get by done.
  unfold mbind at 1, M_bind at 1. rewrite is_transaction_active_spec.
  rewrite bool_decide_eq_true_2 by (rewrite Hop; by destruct L).
  done.
Qed.

(** [unset] of an absent key when a transaction is open. *)
Lemma database_unset_absent s k :
  handler_inv s → opened s ≠ [] → merged_view s !! k = None →
  Database.unset k s = Return tt s.
Proof.
  intros Hinv Hop Hnone.
  unfold Database.unset. unfold mbind at 1, M_bind at 1.
  rewrite inv_get, Hnone by done.
  unfold mbind at 1, M_bind at 1. rewrite is_transaction_active_spec.
  rewrite bool_decide_eq_true_2 by done.
  unfold TransactionHandler.unset. unfold mbind at 1, M_bind at 1.
  rewrite is_active_spec. rewrite bool_decide_eq_true_2 by done.
  by rewrite bool_decide_eq_false_2 by (intros H; by apply H).
Qed.

(** [unset] when no transaction is open. *)
Lemma database_unset_direct s k :
  opened s = [] → Database.unset k s = Raise AttributeError s.
Proof.
  intros Hop. unfold Database.unset, Database.get, Database.self_data.
  unfold mbind at 1, M_bind at 1. unfold mbind at 1, M_bind at 1.
  rewrite is_transaction_active_spec, Hop. simpl.
  unfold_monad. rewrite is_transaction_active_spec, Hop. done.
Qed.

Lemma database_begin_spec s :
  Database.begin s = Return tt (upd_opened (λ l, l ++ [∅]) s).
Proof. done. Qed.

Lemma database_num_equal_to_spec s v :
  Database.num_equal_to v s =
  Return (Data.count (db_freq s) v + Data.count (txn_freq s) v)%Z s.
Proof. done. Qed.

Lemma database_rollback_inactive s :
  opened s = [] → Database.rollback s = Return false s.
Proof.
  intros Hop. unfold Database.rollback. unfold mbind, M_bind.
  by rewrite is_transaction_active_spec, Hop.
Qed.

Lemma database_commit_inactive s :
  opened s = [] → Database.commit s = Return false s.
Proof.
  intros Hop. unfold Database.commit. unfold mbind, M_bind.
  by rewrite is_transaction_active_spec, Hop.
Qed.

Lemma database_rollback_active s s' :
  opened s ≠ [] → TransactionHandler.rollback s = Return tt s' →
  Database.rollback s = Return true s'.
Proof.
  intros Hop Hrun. unfold Database.rollback. unfold mbind, M_bind.
  rewrite is_transaction_active_spec, bool_decide_eq_true_2 by done.
  by rewrite Hrun.
Qed.

Lemma database_commit_active s s' :
  opened s ≠ [] → TransactionHandler.commit s = Return tt s' →
  Database.commit s = Return true s'.
Proof.
  intros Hop Hrun. unfold Database.commit. unfold mbind, M_bind.
  rewrite is_transaction_active_spec, bool_decide_eq_true_2 by done.
  by rewrite Hrun.
Qed.

(** ** Every call, case by case, and the invariant it keeps *)

Lemma opened_cases s : opened s = [] ∨ ∃ L top, opened s = L ++ [top].
Proof.
  destruct (decide (opened s = [])) as [|Hne]; [by left|right].
  by apply last_snoc_inv.
Qed.

Lemma exec_effect o s : handler_inv s → effect s o (exec o s).
Proof.
  intros Hinv. destruct o as [k|k new|k|v| | |]; unfold exec, mbind, M_bind.
  - rewrite inv_get by done. constructor.
  - destruct (decide (merged_view s !! k = Some new)) as [Hsame|Hdiff].
    + rewrite database_set_same by (by rewrite inv_get, Hsame).
      by constructor.
    + destruct (opened_cases s) as [Hop|(L & top & Hop)].
      * assert (merged_view s !! k = db_data s !! k) as Hm.
        { rewrite merged_view_lookup. destruct (inv_no_layers s Hinv Hop) as [-> _].
          by rewrite lookup_empty. }
        rewrite Hm in Hdiff. rewrite database_set_direct by done.
        by constructor.
      * destruct (database_set_layer s L top k new Hinv Hop Hdiff)
          as (s' & -> & Hdb & Hop' & Htd & Htf).
        by eapply effect_set_layer.
  - destruct (opened_cases s) as [Hop|(L & top & Hop)].
    + rewrite database_unset_direct by done. by constructor.
    + destruct (decide (merged_view s !! k = None)) as [Hnone|Hsome].
      * rewrite database_unset_absent; [|done|rewrite Hop; by destruct L|done].
        constructor; [rewrite Hop; by destruct L|done].
      * destruct (database_unset_layer s L top k Hinv Hop Hsome)
          as (s' & -> & Hdb & Hop' & Htd & Htf).
        by eapply effect_unset_layer.
  - rewrite database_num_equal_to_spec. constructor.
  - rewrite database_begin_spec. constructor.
  - destruct (opened_cases s) as [Hop|(L & top & Hop)].
    + rewrite database_rollback_inactive by done. by constructor.
    + destruct (decide (L = [])) as [->|HL].
      * rewrite (database_rollback_active s (mkDatabase (database s) TransactionHandler.new)).
        -- by eapply effect_rollback_single.
        -- by rewrite Hop.
        -- by eapply handler_rollback_single.
      * destruct (last_snoc_inv L HL) as (L' & t & ->).
        destruct (handler_rollback_nested s L' t top Hinv Hop)
          as (s' & Hrun & Hinv' & Hdb & Hop' & Htd).
        rewrite (database_rollback_active s s'); [|rewrite Hop; by destruct (L' ++ [t])|done].
        by eapply effect_rollback_nested.
  - destruct (opened_cases s) as [Hop|(L & top & Hop)].
    + rewrite database_commit_inactive by done. by constructor.
    + assert (opened s ≠ []) as Hne by (rewrite Hop; by destruct L).
      destruct (handler_commit_spec s Hinv Hne) as (s' & Hrun & Hth & Hdd & Hsp & Hc).
      rewrite (database_commit_active s s') by done.
      by eapply effect_commit.
Qed.


Lemma sparse_increase f o : sparse f → sparse (Data.increase_freq f o).
Proof. apply sparse_modify_freq. Qed.
Lemma sparse_decrease f o : sparse f → sparse (Data.decrease_freq f o).
Proof. apply sparse_modify_freq. Qed.

(** The invariant of the handler survives every call. *)
Lemma effect_inv s o r : handler_inv s → effect s o r → handler_inv (final_state r).
Proof.
  intros Hinv He. effect_cases He; try done.
  - (* direct set *)
    rewrite (inv_no_layers_handler s) by done. apply inv_cleared.
  - (* set in a layer *)
    eapply (write_inv s s' L top key (Some new_value)); try done.
    + rewrite Htf. apply sparse_increase, sparse_decrease, (inv_sparse s Hinv).
    + intros v. rewrite Htf, count_increase, count_decrease. lia.
  - (* unset in a layer *)
    eapply (write_inv s s' L top key None); try done.
    + rewrite Htf. apply sparse_decrease, (inv_sparse s Hinv).
    + intros v. rewrite Htf, count_decrease, ind_None. lia.
  - (* begin *)
    destruct Hinv as [Hlen Hne Hsp Hd]. split; try done.
    intros k. unfold history_of, layers_touching, upd_opened. simpl.
    rewrite filter_app, length_app, filter_cons, decide_False by set_solver.
    rewrite filter_nil. simpl. rewrite Nat.add_0_r. apply Hlen.
  - apply inv_cleared.
  - destruct s' as [d th]. simpl in *. subst th. apply inv_cleared.
Qed.

Lemma exec_inv o s : handler_inv s → handler_inv (final_state (exec o s)).
Proof. intros H. eapply effect_inv; [done|]. by apply exec_effect. Qed.

Lemma inv_new : handler_inv Database.new.
Proof. apply inv_cleared. Qed.

Lemma reachable_by_inv allowed s : reachable_by allowed s → handler_inv s.
Proof. induction 1; [apply inv_new|by apply exec_inv]. Qed.

(** Extra X15.  What [commit] does when a transaction is open: every key of the
    aggregate history gets what [committed] makes of its last entry, the
    aggregate counts are added to the store's, and the stack is gone, so
    that a [rollback] or [commit] that follows reports no transaction. *)
Lemma commit_applies s :
  reachable s → opened s ≠ [] →
  ∃ s', Database.commit s = Return true s' ∧
    (∀ key, db_data s' !! key =
            match txn_data s !! key with
            | Some key_list => committed (default None (last key_list))
            | None => db_data s !! key
            end) ∧
    (∀ v, Data.count (db_freq s') v =
          (Data.count (db_freq s) v + Data.count (txn_freq s) v)%Z) ∧
    transaction_handler s' = TransactionHandler.new ∧
    Database.rollback s' = Return false s' ∧
    Database.commit s' = Return false s'.
Proof.
  intros Hr Hopen. pose proof (reachable_by_inv _ _ Hr) as Hinv.
  destruct (handler_commit_spec s Hinv Hopen) as (s' & Hrun & Hth & Hdd & _ & Hc).
  exists s'. split_and!; try done.
  - by apply database_commit_active.
  - apply database_rollback_inactive. by rewrite Hth.
  - apply database_commit_inactive. by rewrite Hth.
Qed.

(** ** The store's own index, for callers that never store the empty
    string *)

Lemma elem_of_removelast {A} (x : A) (l : list A) : x ∈ removelast l → x ∈ l.
Proof.
  destruct (decide (l = [])) as [->|Hne]; [done|].
  destruct (last_snoc_inv l Hne) as (l' & y & ->).
  rewrite removelast_last. set_solver.
Qed.

Lemma elem_of_written_history s top k entry x :
  x ∈ written_history s top k entry → x = entry ∨ x ∈ history_of s k.
Proof.
  unfold written_history. intros [Hin|Hin]%elem_of_app.
  - right. destruct (decide (k ∈ top)); [by apply elem_of_removelast|done].
  - left. set_solver.
Qed.

Lemma history_nonempty_of s k : history_nonempty s → Some EmptyString ∉ history_of s k.
Proof.
  intros H. unfold history_of. destruct (txn_data s !! k) as [l|] eqn:E; simpl.
  - by eapply H.
  - set_solver.
Qed.

Lemma write_history_nonempty s s' top k entry :
  history_nonempty s → entry ≠ Some EmptyString →
  txn_data s' = <[k := written_history s top k entry]> (txn_data s) →
  history_nonempty s'.
Proof.
  intros Hh Hentry Htd j l. rewrite Htd. destruct (decide (j = k)) as [->|Hj].
  - rewrite lookup_insert_eq. intros [= <-] Hin.
    apply elem_of_written_history in Hin as [Hin|Hin]; [done|].
    by eapply history_nonempty_of.
  - rewrite lookup_insert_ne by done. apply Hh.
Qed.

Lemma merged_view_ext s s' :
  db_data s' = db_data s → txn_data s' = txn_data s → merged_view s' = merged_view s.
Proof. unfold merged_view. by intros -> ->. Qed.

Lemma commit_merged s s' :
  handler_inv s → history_nonempty s →
  (∀ key, db_data s' !! key =
          match txn_data s !! key with
          | Some key_list => committed (default None (last key_list))
          | None => db_data s !! key
          end) →
  db_data s' = merged_view s.
Proof.
  intros Hinv Hh Hdd. apply map_eq. intros k. rewrite Hdd, merged_view_lookup.
  unfold overlay. destruct (txn_data s !! k) as [l|] eqn:E; [|done].
  assert (l ≠ []) as Hl by (intros ->; by apply (inv_nonempty s Hinv k)).
  destruct (last_snoc_inv l Hl) as (l' & x & ->). rewrite last_snoc. simpl.
  unfold committed, TransactionHandler.truthy. destruct x as [v|]; [|done].
  rewrite bool_decide_eq_true_2; [done|].
  intros ->. apply (Hh k _ E). set_solver.
Qed.

(** Calls that store no empty string keep the store's own index exact. *)
Lemma effect_store s o r :
  handler_inv s → store_inv s → history_nonempty s → nonempty_value o →
  effect s o r →
  store_inv (final_state r) ∧ history_nonempty (final_state r).
Proof.
  intros Hinv Hst Hh Ho He. effect_cases He; try done.
  - (* direct set *)
    split; [|done]. intros v. unfold store_inv in *. simpl.
    rewrite count_increase, count_decrease, nkeys_insert, Hst. done.
  - split; [unfold store_inv; by rewrite Hdb|].
    apply (write_history_nonempty s s' top key (Some new_value) Hh); [|done].
    simpl in Ho. congruence.
  - split; [unfold store_inv; by rewrite Hdb|].
    by apply (write_history_nonempty s s' top key None Hh).
  - split; [unfold store_inv; by rewrite Hdb|].
    intros j l. rewrite Htd. destruct (decide (j ∈ top)); [|apply Hh].
    unfold popped_history. destruct (removelast (history_of s j)) eqn:E; [done|].
    intros [= <-] Hin. rewrite <- E in Hin. apply elem_of_removelast in Hin.
    by eapply history_nonempty_of.
  - split.
    + intros v. rewrite Hc, (commit_merged s s') by done.
      rewrite (inv_delta s Hinv), Hst. lia.
    + intros j l. rewrite Hth. simpl. by rewrite lookup_empty.
Qed.

Lemma store_inv_new : store_inv Database.new ∧ history_nonempty Database.new.
Proof.
  split.
  - intros v. simpl. rewrite nkeys_empty. unfold Data.count. by rewrite lookup_empty.
  - intros j l. simpl. by rewrite lookup_empty.
Qed.

Lemma reachable_nonempty_store s :
  reachable_by nonempty_value s → store_inv s ∧ history_nonempty s.
Proof.
  induction 1 as [|o s Ho Hr [Hst Hh]]; [apply store_inv_new|].
  pose proof (reachable_by_inv _ _ Hr) as Hinv.
  eapply effect_store; try done. by apply exec_effect.
Qed.

(** Extra X18.  The frequency invariant, for callers that never store the
    empty string: in every state they can reach, [num_equal_to] of a value
    is the number of keys that hold it in the merged view. *)
Lemma frequency_invariant_nonempty s v :
  reachable_by nonempty_value s →
  returned (Database.num_equal_to v s) = Some (nkeys (merged_view s) v).
Proof.
  intros Hr. rewrite database_num_equal_to_spec. simpl. f_equal.
  destruct (reachable_nonempty_store s Hr) as [Hst _].
  rewrite (inv_delta s (reachable_by_inv _ _ Hr)), Hst. lia.
Qed.

(** The store's frequency dictionary never stores a zero. *)
Lemma effect_store_sparse s o r :
  sparse (db_freq s) → effect s o r → sparse (db_freq (final_state r)).
Proof.
  intros Hsparse He. effect_cases He; try done; try (by rewrite Hdb).
  - by apply sparse_increase, sparse_decrease.
  - by apply Hsp.
Qed.

(** ** A layer and the state under it *)

Lemma layer_over_begin s : layer_over s (upd_opened (λ l, l ++ [∅]) s) ∅.
Proof. split; simpl; try done. Qed.

Lemma layer_over_history s0 s top k :
  layer_over s0 s top → k ∉ top → history_of s k = history_of s0 k.
Proof. intros H Hk. unfold history_of. by rewrite (over_untouched s0 s top H k Hk). Qed.

Lemma layer_over_write s0 s s' top k entry :
  layer_over s0 s top →
  database s' = database s →
  opened s' = opened s0 ++ [top ∪ {[k]}] →
  txn_data s' = <[k := written_history s top k entry]> (txn_data s) →
  layer_over s0 s' (top ∪ {[k]}).
Proof.
  intros Hover Hdb Hop' Htd. split.
  - rewrite Hdb. apply Hover.
  - done.
  - intros j Hj. rewrite Htd. destruct (decide (j = k)) as [->|Hjk].
    + rewrite lookup_insert_eq. exists entry. f_equal. unfold written_history. f_equal.
      destruct (decide (k ∈ top)) as [Hin|Hin].
      * destruct (over_touched s0 s top Hover k Hin) as [x Hx].
        unfold history_of at 1. rewrite Hx. simpl. by rewrite removelast_last.
      * by eapply layer_over_history.
    + rewrite lookup_insert_ne by done. apply (over_touched s0 s top Hover). set_solver.
  - intros j Hj. rewrite Htd, lookup_insert_ne by set_solver.
    apply (over_untouched s0 s top Hover). set_solver.
Qed.

(** A data call inside the layer returns and stays inside the layer. *)
Lemma effect_layer s0 s touched o r :
  layer_over s0 s touched → data_op o → effect s o r →
  ∃ a s' top', r = Return a s' ∧ layer_over s0 s' top'.
Proof.
  intros Hover Ho He.
  pose proof (over_opened s0 s touched Hover) as Hopen.
  effect_cases He; try done; try (by eauto).
  - rewrite Hop in Hopen. by destruct (opened s0).
  - rewrite Hop in Hopen. apply app_inj_tail in Hopen as [-> ->].
    do 3 eexists. split; [done|]. by eapply layer_over_write.
  - rewrite Hop in Hopen. by destruct (opened s0).
  - rewrite Hop in Hopen. apply app_inj_tail in Hopen as [-> ->].
    do 3 eexists. split; [done|]. by eapply layer_over_write.
Qed.

Lemma run_layer s0 ops : ∀ s top,
  handler_inv s → layer_over s0 s top → Forall data_op ops →
  ∃ answers s' top',
    run ops s = Return answers s' ∧ handler_inv s' ∧ layer_over s0 s' top'.
Proof.
  induction ops as [|o ops IH]; intros s top Hinv Hover Hops.
  - exists [], s, top. done.
  - apply Forall_cons in Hops as [Ho Hops].
    pose proof (exec_effect o s Hinv) as He.
    destruct (effect_layer s0 s top o _ Hover Ho He) as (a & s1 & top1 & Hr & Hover1).
    pose proof (exec_inv o s Hinv) as Hinv1. rewrite Hr in Hinv1. simpl in Hinv1.
    destruct (IH s1 top1 Hinv1 Hover1 Hops) as (answers & s' & top' & Hrun & Hinv' & Hover').
    exists (a :: answers), s', top'. split; [|done].
    simpl. unfold mbind, M_bind. by rewrite Hr, Hrun.
Qed.

Lemma database_ext (s s' : Database) :
  database s' = database s → opened s' = opened s →
  txn_data s' = txn_data s → txn_freq s' = txn_freq s → s' = s.
Proof.
  destruct s as [d [[td tf] op]], s' as [d' [[td' tf'] op']]. simpl.
  by intros -> -> -> ->.
Qed.

(** Rolling the layer back gives the state under it. *)
Lemma rollback_layer s0 s touched :
  handler_inv s0 → handler_inv s → layer_over s0 s touched →
  exec ROLLBACK s = Return (ABool true) s0.
Proof.
  intros Hinv0 Hinv Hover.
  pose proof (over_opened s0 s touched Hover) as Hopen.
  pose proof (over_database s0 s touched Hover) as Hdata.
  pose proof (exec_effect ROLLBACK s Hinv) as He.
  remember (exec ROLLBACK s) as r eqn:Hr. remember ROLLBACK as o eqn:Ho.
  effect_cases He; try done.
  - rewrite Hop in Hopen. by destruct (opened s0).
  - rewrite Hop in Hopen. apply (app_inj_tail []) in Hopen as [Hop0 _].
    f_equal. symmetry in Hop0.
    rewrite Hdata. rewrite <- (inv_no_layers_handler s0 Hinv0 Hop0). by destruct s0.
  - rewrite Hop in Hopen. apply app_inj_tail in Hopen as [Hop0 ->].
    f_equal.
    assert (txn_data s' = txn_data s0) as Htd0.
    { apply map_eq. intros j. rewrite Htd. destruct (decide (j ∈ touched)) as [Hin|Hin].
      - destruct (over_touched s0 s touched Hover j Hin) as [x Hx].
        unfold history_of at 1. rewrite Hx. simpl.
        unfold popped_history. rewrite removelast_last. unfold history_of.
        pose proof (inv_nonempty s0 Hinv0 j) as Hne.
        by destruct (txn_data s0 !! j) as [[|y l]|].
      - apply (over_untouched s0 s touched Hover j Hin). }
    apply database_ext; try congruence.
    apply sparse_count_eq; [apply (inv_sparse s' Hinv')|apply (inv_sparse s0 Hinv0)|].
    intros v. rewrite (inv_delta s' Hinv'), (inv_delta s0 Hinv0).
    rewrite (merged_view_ext s' s0) by congruence. by rewrite Hdb, Hdata.
Qed.

Lemma run_app ops1 ops2 s a1 s1 :
  run ops1 s = Return a1 s1 →
  run (ops1 ++ ops2) s =
  match run ops2 s1 with
  | Return a2 s2 => Return (a1 ++ a2) s2
  | Raise e s2 => Raise e s2
  end.
Proof.
  revert s a1. induction ops1 as [|o ops1 IH]; intros s a1 Hrun; simpl in *.
  - injection Hrun as <- <-. unfold_monad. by destruct (run ops2 s).
  - unfold mbind, M_bind in *. destruct (exec o s) as [a s'|]; [|done].
    destruct (run ops1 s') as [a1' s1'|] eqn:E; [|done].
    injection Hrun as <- <-. rewrite (IH s' a1' E).
    by destruct (run ops2 s1').
Qed.

(** Claim C2.  Rollback is a perfect inverse for the enclosing scope: from
    every reachable state, [BEGIN], any sequence of get, set, unset and
    numEqualTo calls, then [ROLLBACK] returns normally, and afterwards
    every key reads as it did before the [BEGIN] and every value is
    counted as it was. *)
Theorem rollback_inverse s ops :
  reachable s → Forall data_op ops →
  ∃ answers s',
    run (BEGIN :: ops ++ [ROLLBACK]) s = Return answers s' ∧
    (∀ key, returned (Database.get key s') = returned (Database.get key s)) ∧
    (∀ value, returned (Database.num_equal_to value s') =
              returned (Database.num_equal_to value s)).
Proof.
  intros Hr Hops. pose proof (reachable_by_inv _ _ Hr) as Hinv.
  set (s1 := upd_opened (λ l, l ++ [∅]) s).
  assert (handler_inv s1) as Hinv1 by apply (exec_inv BEGIN s Hinv).
  destruct (run_layer s ops s1 ∅ Hinv1 (layer_over_begin s) Hops)
    as (answers & s2 & top & Hrun & Hinv2 & Hover).
  exists (ANone :: answers ++ [ABool true]), s. split; [|done].
  change (BEGIN :: ops ++ [ROLLBACK]) with ([BEGIN] ++ (ops ++ [ROLLBACK])).
  rewrite (run_app [BEGIN] (ops ++ [ROLLBACK]) s [ANone] s1) by done.
  rewrite (run_app ops [ROLLBACK] s1 answers s2 Hrun). simpl.
  unfold mbind, M_bind. by rewrite (rollback_layer s s2 top Hinv Hinv2 Hover).
Qed.

(** ** Iteration order

    Python iterates a set in an order of its own and a dictionary in
    insertion order; the embedding iterates in the order of [elements] and
    [map_to_list].  The order is immaterial. *)

(** The loop of [rollback] gives the same state in whatever order the set
    of touched keys is iterated. *)
Lemma rollback_any_order ks ks' s :
  NoDup ks → ks ≡ₚ ks' → pending_inv ks s →
  for_each ks' TransactionHandler.rollback_key s =
  for_each ks TransactionHandler.rollback_key s.
Proof.
  intros Hnd Hperm Hp.
  assert (NoDup ks') as Hnd' by (by rewrite <- Hperm).
  assert (pending_inv ks' s) as Hp'.
  { destruct Hp as [Hlen Hne Hsp Hd]. split; try done.
    intros j. rewrite Hlen.
    destruct (decide (j ∈ ks)) as [Hin|Hin], (decide (j ∈ ks')) as [Hin'|Hin'];
      try done; rewrite Hperm in Hin; done. }
  destruct (rollback_loop_spec ks s Hnd Hp) as (s1 & -> & Hinv1 & Hdb1 & Hop1 & Htd1).
  destruct (rollback_loop_spec ks' s Hnd' Hp') as (s2 & -> & Hinv2 & Hdb2 & Hop2 & Htd2).
  f_equal.
  assert (txn_data s2 = txn_data s1) as Htd.
  { apply map_eq. intros j. rewrite Htd1, Htd2.
    destruct (decide (j ∈ ks)) as [Hin|Hin], (decide (j ∈ ks')) as [Hin'|Hin'];
      try done; rewrite Hperm in Hin; done. }
  apply database_ext; try congruence.
  apply sparse_count_eq; [apply (inv_sparse s2 Hinv2)|apply (inv_sparse s1 Hinv1)|].
  intros v. rewrite (inv_delta s2 Hinv2), (inv_delta s1 Hinv1).
  rewrite (merged_view_ext s2 s1) by congruence. by rewrite Hdb2, Hdb1.
Qed.

(** The two loops of [commit] give the same store in whatever order the two
    dictionaries are iterated. *)
Lemma commit_any_order s items freqs :
  handler_inv s → sparse (db_freq s) →
  items ≡ₚ map_to_list (txn_data s) → freqs ≡ₚ map_to_list (txn_freq s) →
  (for_each items TransactionHandler.commit_item ;;
   for_each freqs TransactionHandler.commit_freq ;;
   TransactionHandler.clear) s =
  (for_each (map_to_list (txn_data s)) TransactionHandler.commit_item ;;
   for_each (map_to_list (txn_freq s)) TransactionHandler.commit_freq ;;
   TransactionHandler.clear) s.
Proof.
  intros Hinv Hsp Hitems Hfreqs.
  assert (∀ l : list (string * list (option string)),
    l ≡ₚ map_to_list (txn_data s) →
    NoDup l.*1 ∧ (list_to_map l : gmap _ _) = txn_data s ∧
    ∀ k kl, (k, kl) ∈ l → txn_data s !! k = Some kl ∧ kl ≠ []) as Hi.
  { intros l Hl. split_and!.
    - rewrite Hl. apply NoDup_fst_map_to_list.
    - rewrite <- (list_to_map_to_list (txn_data s)).
      apply list_to_map_proper; [|done].
      rewrite Hl. apply NoDup_fst_map_to_list.
    - intros k kl Hin. rewrite Hl in Hin. apply elem_of_map_to_list in Hin.
      split; [done|]. intros ->. by apply (inv_nonempty s Hinv k). }
  assert (∀ l : list (string * Z),
    l ≡ₚ map_to_list (txn_freq s) →
    NoDup l.*1 ∧ (list_to_map l : gmap _ _) = txn_freq s) as Hf.
  { intros l Hl. split.
    - rewrite Hl. apply NoDup_fst_map_to_list.
    - rewrite <- (list_to_map_to_list (txn_freq s)).
      apply list_to_map_proper; [|done].
      rewrite Hl. apply NoDup_fst_map_to_list. }
  assert (∀ (l : list (string * list (option string))) (l' : list (string * Z)),
    l ≡ₚ map_to_list (txn_data s) → l' ≡ₚ map_to_list (txn_freq s) →
    ∃ d, (for_each l TransactionHandler.commit_item ;;
          for_each l' TransactionHandler.commit_freq ;;
          TransactionHandler.clear) s = Return tt (mkDatabase d TransactionHandler.new) ∧
         sparse (values_freq d) ∧
         (∀ j, data d !! j = match txn_data s !! j with
                             | Some kl => committed (default None (last kl))
                             | None => db_data s !! j
                             end) ∧
         (∀ v, Data.count (values_freq d) v =
               (Data.count (db_freq s) v + Data.count (txn_freq s) v)%Z)) as Hrun.
  { intros l l' Hl Hl'.
    destruct (Hi l Hl) as (Hnd & Hmap & Hin). destruct (Hf l' Hl') as (Hnd' & Hmap').
    destruct (commit_items_spec l s Hnd Hin) as (s1 & Hrun1 & Hdf1 & Htf1 & Hop1 & Hdd1).
    destruct (commit_freqs_spec l' s1 Hnd') as (s2 & Hrun2 & Hdd2 & Hth2 & Hsp2 & Hc2).
    exists (database s2). split_and!.
    - unfold mbind, M_bind. by rewrite Hrun1, Hrun2.
    - apply Hsp2. by rewrite Hdf1.
    - intros j. by rewrite Hdd2, Hdd1, Hmap.
    - intros v. by rewrite Hc2, Hdf1, Hmap'. }
  destruct (Hrun items freqs Hitems Hfreqs) as (d & -> & Hsp1 & Hd1 & Hc1).
  destruct (Hrun (map_to_list (txn_data s)) (map_to_list (txn_freq s))) as (d' & -> & Hsp2 & Hd2 & Hc2);
    [done|done|].
  do 2 f_equal. destruct d as [dd df], d' as [dd' df']. simpl in *. f_equal.
  - apply map_eq. intros j. by rewrite Hd1, Hd2.
  - apply sparse_count_eq; [done|done|]. intros v. by rewrite Hc1, Hc2.
Qed.

(** ** History entries of the current layer *)

Lemma exec_SET k v s a s' :
  exec (SET k v) s = Return a s' → Database.set k v s = Return tt s'.
Proof.
  unfold exec, mbind, M_bind. destruct (Database.set k v s) as [[] s''|]; [|done].
  unfold_monad. by intros [= _ ->].
Qed.

Lemma exec_UNSET k s a s' :
  exec (UNSET k) s = Return a s' → Database.unset k s = Return tt s'.
Proof.
  unfold exec, mbind, M_bind. destruct (Database.unset k s) as [[] s''|]; [|done].
  unfold_monad. by intros [= _ ->].
Qed.

Lemma touched_last s L touched k :
  handler_inv s → opened s = L ++ [touched] → k ∈ touched →
  ∃ l, txn_data s !! k = Some (l ++ [merged_view s !! k]).
Proof.
  intros Hinv Hop Hin.
  pose proof (inv_touched_nonempty s L touched k Hinv Hop Hin) as Hne.
  destruct (last_snoc_inv _ Hne) as (l & x & El). exists l.
  rewrite merged_view_lookup. unfold history_of in El.
  destruct (txn_data s !! k) as [l0|]; simpl in El; [|by destruct l].
  subst l0. by rewrite overlay_snoc.
Qed.

Lemma set_overwrites s below touched k v :
  handler_inv s → opened s = below ++ [touched] → k ∈ touched →
  ∃ s', Database.set k v s = Return tt s' ∧
    history_of s' k = removelast (history_of s k) ++ [Some v].
Proof.
  intros Hinv Hopen Hin.
  destruct (touched_last s below touched k Hinv Hopen Hin) as [l Hl].
  pose proof (exec_effect (SET k v) s Hinv) as He.
  remember (exec (SET k v) s) as r eqn:Hr. remember (SET k v) as o eqn:Ho.
  symmetry in Hr.
  effect_cases He; try done; injection Ho as -> ->.
  - exists s. split; [by eapply exec_SET|].
    unfold history_of. rewrite Hl, Hsame. simpl. by rewrite removelast_last.
  - rewrite Hop in Hopen. by destruct below.
  - exists s'. split; [by eapply exec_SET|].
    rewrite Hop in Hopen. apply app_inj_tail in Hopen as [-> ->].
    unfold history_of at 1. rewrite Htd, lookup_insert_eq. simpl.
    unfold written_history. by rewrite decide_True.
Qed.

Lemma unset_overwrites s below touched k :
  handler_inv s → opened s = below ++ [touched] → k ∈ touched →
  ∃ s', Database.unset k s = Return tt s' ∧
    history_of s' k = removelast (history_of s k) ++ [None].
Proof.
  intros Hinv Hopen Hin.
  destruct (touched_last s below touched k Hinv Hopen Hin) as [l Hl].
  pose proof (exec_effect (UNSET k) s Hinv) as He.
  remember (exec (UNSET k) s) as r eqn:Hr. remember (UNSET k) as o eqn:Ho.
  symmetry in Hr.
  effect_cases He; try done; injection Ho as ->.
  - rewrite Hop in Hopen. by destruct below.
  - exists s. split; [by eapply exec_UNSET|].
    unfold history_of. rewrite Hl, Hnone. simpl. by rewrite removelast_last.
  - exists s'. split; [by eapply exec_UNSET|].
    rewrite Hop in Hopen. apply app_inj_tail in Hopen as [-> ->].
    unfold history_of at 1. rewrite Htd, lookup_insert_eq. simpl.
    unfold written_history. by rewrite decide_True.
Qed.

(** Claim C8.  History discipline of transactional writes: in every
    reachable state the length of a key's aggregate history is the number
    of open layers whose touched set contains the key; and when the
    current (topmost) layer has already touched the key, a set or an unset
    of it returns with the key's last history entry overwritten in place,
    the entries before it and the length of the history being kept. *)
Theorem history_discipline s key :
  reachable s →
  length (history_of s key) = layers_touching s key ∧
  (∀ L top, opened s = L ++ [top] → key ∈ top →
     (∀ value, ∃ s', Database.set key value s = Return tt s' ∧
        history_of s' key = removelast (history_of s key) ++ [Some value]) ∧
     (∃ s', Database.unset key s = Return tt s' ∧
        history_of s' key = removelast (history_of s key) ++ [None])).
Proof.
  intros Hr. pose proof (reachable_by_inv _ _ Hr) as Hinv. split.
  - apply (inv_length s Hinv).
  - intros L top Hop Hin. split.
    + intros value. by eapply set_overwrites.
    + by eapply unset_overwrites.
Qed.

Lemma layers_touching_pos s k :
  (0 < layers_touching s k)%nat ↔ ∃ layer, layer ∈ opened s ∧ k ∈ layer.
Proof.
  unfold layers_touching. split.
  - intros H. destruct (filter _ (opened s)) as [|layer l] eqn:E; [simpl in H; lia|].
    exists layer.
    assert (layer ∈ filter (λ touched : gset string, k ∈ touched) (opened s)) as Hin
      by (rewrite E; set_solver).
    apply list_elem_of_filter in Hin. tauto.
  - intros (layer & Hl & Hk).
    assert (layer ∈ filter (λ touched : gset string, k ∈ touched) (opened s)) as Hin
      by (by apply list_elem_of_filter).
    destruct (filter _ (opened s)); [by apply not_elem_of_nil in Hin|simpl; lia].
Qed.

(** Claim C10.  In every reachable state every key present in the
    aggregate history maps to a non-empty list, and the handler's [get]
    reports [found = True] exactly when some open layer has written the
    key, that is, holds it in its touched set. *)
Theorem history_lists_nonempty s :
  reachable s →
  (∀ key key_list, txn_data s !! key = Some key_list → key_list ≠ []) ∧
  (∀ key, ∃ value found,
     TransactionHandler.get key s = Return (value, found) s ∧
     (found = true ↔ ∃ layer, layer ∈ opened s ∧ key ∈ layer)).
Proof.
  intros Hr. pose proof (reachable_by_inv _ _ Hr) as Hinv. split.
  - intros key l Hl ->. by apply (inv_nonempty s Hinv key).
  - intros key. pose proof (layers_touching_pos s key) as Hpos.
    rewrite <- (inv_length s Hinv key) in Hpos. rewrite handler_get_spec.
    destruct (history_of s key) as [|x l] eqn:E.
    + exists None, false. split; [done|]. rewrite <- Hpos. simpl. split; [done|lia].
    + destruct (last (x :: l)) as [y|] eqn:El.
      * exists y, true. split; [done|]. rewrite <- Hpos. simpl. split; [lia|done].
      * by apply last_None in El.
Qed.

(** Claim C7.  No-op set: in every state, when [get key] returns [value],
    [set key value] returns and leaves the whole state as it was: the
    store's data, both frequency dictionaries, the aggregate history and
    every layer's touched set. *)
Theorem set_same_value_noop s key value :
  returned (Database.get key s) = Some (Some value) →
  Database.set key value s = Return tt s.
Proof. apply database_set_same. Qed.

(** ** The console *)

Lemma read_from_stdin_rejects c line rest field0 arguments :
  DBConsole.stdin c = line :: rest →
  split line = field0 :: arguments →
  upper field0 ∉ DBConsole.end_operation →
  (upper field0, length arguments) ∉ DBConsole.valid_operations_arguments →
  DBConsole.read_from_stdin c =
  Return true
    (DBConsole.mk (DBConsole.database c) rest
       (DBConsole.stdout c ++ [Text "Invalid method or number of arguments"])).
Proof.
  intros Hin Hsplit Hend Hvalid.
  unfold DBConsole.read_from_stdin, DBConsole.try_except_EOFError, DBConsole.input,
    DBConsole.print.
  unfold_monad. rewrite Hin, Hsplit.
  rewrite bool_decide_eq_false_2 by done.
  rewrite bool_decide_eq_false_2 by done.
  done.
Qed.

Lemma listen_unfold c c' :
  DBConsole.read_from_stdin c = Return true c' →
  length (DBConsole.stdin c) = S (length (DBConsole.stdin c')) →
  DBConsole.listen c = DBConsole.listen c'.
Proof.
  intros Hread Hlen. unfold DBConsole.listen. rewrite Hlen.
  change (DBConsole.listen_loop (S (S (length (DBConsole.stdin c')))) c)
    with (mbind (λ active : bool, if active
            then DBConsole.listen_loop (S (length (DBConsole.stdin c')))
            else mret ()) DBConsole.read_from_stdin c).
  unfold mbind, M_bind. by rewrite Hread.
Qed.




(** ** Nested transactions against direct calls *)

Lemma merged_view_closed s : handler_inv s → opened s = [] → merged_view s = db_data s.
Proof.
  intros Hinv Hop. apply map_eq. intros k. rewrite merged_view_lookup.
  destruct (inv_no_layers s Hinv Hop) as [-> _]. by rewrite lookup_empty.
Qed.

Lemma write_merged s s' touched k v :
  database s' = database s →
  txn_data s' = <[k := written_history s touched k (Some v)]> (txn_data s) →
  merged_view s' = <[k := v]> (merged_view s).
Proof.
  intros Hdb Htd. apply map_eq. intros j. rewrite merged_view_lookup, Hdb, Htd.
  destruct (decide (j = k)) as [->|Hj].
  - rewrite !lookup_insert_eq. unfold written_history. by rewrite overlay_snoc.
  - rewrite !lookup_insert_ne by done. by rewrite merged_view_lookup.
Qed.

Lemma shows_begin s :
  handler_inv s → opened s = [] → sparse (db_freq s) → history_nonempty s →
  shows s (upd_opened (λ l, l ++ [∅]) s).
Proof.
  intros Hinv Hop Hsp Hh. split; try done.
  - apply (exec_inv BEGIN s Hinv).
  - simpl. by destruct (opened s).
  - rewrite <- (merged_view_closed s Hinv Hop). done.
  - intros v. simpl. destruct (inv_no_layers s Hinv Hop) as [_ ->].
    unfold Data.count at 2. rewrite lookup_empty. simpl. lia.
Qed.

Lemma shows_inner_begin d t : shows d t → shows d (upd_opened (λ l, l ++ [∅]) t).
Proof.
  intros [H1 H2 H3 H4 H5 H6 H7 H8 H9]. split; try done.
  - apply (exec_inv BEGIN t H4).
  - simpl. by destruct (opened t).
Qed.

(** A plain call answers the same and keeps the correspondence. *)
Lemma shows_exec d t o :
  shows d t → plain_op o →
  ∃ a d' t', exec o d = Return a d' ∧ exec o t = Return a t' ∧ shows d' t'.
Proof.
  intros Hsh Ho.
  pose proof (shows_direct_inv d t Hsh) as Hinvd.
  pose proof (shows_inv d t Hsh) as Hinvt.
  pose proof (shows_direct_closed d t Hsh) as Hclosed.
  pose proof (shows_open d t Hsh) as Hopen.
  pose proof (shows_data d t Hsh) as Hdata.
  pose proof (shows_count d t Hsh) as Hcount.
  pose proof (merged_view_closed d Hinvd Hclosed) as Hmd.
  destruct o as [k|k v|k|v| | |]; try done.
  - exists (AValue (merged_view d !! k)), d, t. split_and!; [| |done].
    + unfold exec, mbind, M_bind. by rewrite inv_get.
    + unfold exec, mbind, M_bind. rewrite inv_get by done. by rewrite Hdata, Hmd.
  - pose proof (exec_effect (SET k v) d Hinvd) as Hed.
    pose proof (exec_effect (SET k v) t Hinvt) as Het.
    pose proof (exec_inv (SET k v) d Hinvd) as Hinvd'.
    pose proof (exec_inv (SET k v) t Hinvt) as Hinvt'.
    destruct (decide (merged_view t !! k = Some v)) as [Hsame|Hdiff].
    + exists ANone, d, t. split_and!; [| |done].
      * unfold exec, mbind, M_bind.
        rewrite database_set_same; [done|]. by rewrite inv_get, Hmd, <- Hdata, Hsame.
      * unfold exec, mbind, M_bind.
        rewrite database_set_same; [done|]. by rewrite inv_get, Hsame.
    + assert (db_data d !! k ≠ Some v) as Hdiffd by (by rewrite <- Hdata).
      destruct (last_snoc_inv _ Hopen) as (L & top & Hop).
      destruct (database_set_layer t L top k v Hinvt Hop Hdiff)
        as (t' & Hrun & Hdb & Hop' & Htd & Htf).
      eexists ANone, _, t'. split_and!.
      * unfold exec, mbind, M_bind. by rewrite database_set_direct.
      * unfold exec, mbind, M_bind. by rewrite Hrun.
      * unfold exec, mbind, M_bind in Hinvd', Hinvt'.
        rewrite database_set_direct in Hinvd' by done. rewrite Hrun in Hinvt'.
        split; simpl; try done.
        -- apply sparse_increase, sparse_decrease, (shows_direct_sparse d t Hsh).
        -- rewrite Hop'. by destruct L.
        -- rewrite Hdb. apply (shows_sparse d t Hsh).
        -- apply (write_history_nonempty t t' top k (Some v)); [|by intros [= ->]|done].
           apply (shows_nonempty d t Hsh).
        -- rewrite (write_merged t t' top k v Hdb Htd). by rewrite Hdata.
        -- intros w. rewrite Htf, Hdb, !count_increase, !count_decrease, <- Hcount.
           rewrite <- Hdata. lia.
  - exists (ACount (Data.count (db_freq d) v + Data.count (txn_freq d) v)), d, t.
    split_and!; [done| |done].
    unfold exec, mbind, M_bind. rewrite !database_num_equal_to_spec. unfold_monad.
    do 2 f_equal. rewrite Hcount.
    destruct (inv_no_layers d Hinvd Hclosed) as [_ ->].
    unfold Data.count at 3. rewrite lookup_empty. simpl. lia.
Qed.

Lemma shows_run ops : ∀ d t,
  shows d t → Forall plain_op ops →
  ∃ answers d' t',
    run ops d = Return answers d' ∧ run ops t = Return answers t' ∧ shows d' t'.
Proof.
  induction ops as [|o ops IH]; intros d t Hsh Hops.
  - by exists [], d, t.
  - apply Forall_cons in Hops as [Ho Hops].
    destruct (shows_exec d t o Hsh Ho) as (a & d1 & t1 & Hd & Ht & Hsh1).
    destruct (IH d1 t1 Hsh1 Hops) as (answers & d' & t' & Hd' & Ht' & Hsh').
    exists (a :: answers), d', t'. simpl. unfold mbind, M_bind.
    by rewrite Hd, Ht, Hd', Ht'.
Qed.

Lemma shows_commit d tx :
  shows d tx → ∃ t', exec COMMIT tx = Return (ABool true) t' ∧ t' = d.
Proof.
  intros Hsh.
  pose proof (shows_inv d tx Hsh) as Hinvt.
  pose proof (exec_effect COMMIT tx Hinvt) as He.
  remember (exec COMMIT tx) as r eqn:Hr. remember COMMIT as o eqn:Ho.
  effect_cases He; try done.
  - by destruct (shows_open d tx Hsh).
  - exists s'. split; [done|].
    rewrite <- (inv_no_layers_handler d (shows_direct_inv d tx Hsh)
                  (shows_direct_closed d tx Hsh)) in Hth.
    assert (db_data s' = db_data d) as Hdata.
    { rewrite (commit_merged tx s' Hinvt (shows_nonempty d tx Hsh) Hdd).
      apply (shows_data d tx Hsh). }
    assert (db_freq s' = db_freq d) as Hfreq.
    { apply sparse_count_eq.
      - apply Hsp, (shows_sparse d tx Hsh).
      - apply (shows_direct_sparse d tx Hsh).
      - intros v. rewrite Hc. apply (shows_count d tx Hsh). }
    destruct s' as [[dd df] th], d as [[dd' df'] th']. simpl in *. by subst.
Qed.

(** Extra X19.  Nested transactions committed at once leave the very state
    the same plain calls leave when issued directly, and the calls answer
    the same on the way. *)
Lemma flattening_of_plain_calls s ops1 ops2 :
  reachable_by nonempty_value s → opened s = [] →
  Forall plain_op ops1 → Forall plain_op ops2 →
  ∃ answers1 answers2 s',
    run (ops1 ++ ops2) s = Return (answers1 ++ answers2) s' ∧
    run ([BEGIN] ++ ops1 ++ [BEGIN] ++ ops2 ++ [COMMIT]) s =
      Return ([ANone] ++ answers1 ++ [ANone] ++ answers2 ++ [ABool true]) s'.
Proof.
  intros Hr Hop H1 H2.
  pose proof (reachable_by_inv _ _ Hr) as Hinv.
  destruct (reachable_nonempty_store s Hr) as [_ Hh].
  assert (sparse (db_freq s)) as Hsp.
  { clear -Hr. induction Hr as [|o s Ho Hr IH]; [apply sparse_empty|].
    eapply effect_store_sparse; [done|]. apply exec_effect, (reachable_by_inv _ _ Hr). }
  pose proof (shows_begin s Hinv Hop Hsp Hh) as Hsh0.
  destruct (shows_run ops1 _ _ Hsh0 H1) as (a1 & d1 & t1 & Hd1 & Ht1 & Hsh1).
  pose proof (shows_inner_begin d1 t1 Hsh1) as Hsh1'.
  destruct (shows_run ops2 _ _ Hsh1' H2) as (a2 & d2 & t2 & Hd2 & Ht2 & Hsh2).
  destruct (shows_commit d2 t2 Hsh2) as (t' & Hc & ->).
  exists a1, a2, d2. split.
  - rewrite (run_app ops1 ops2 s a1 d1 Hd1). by rewrite Hd2.
  - rewrite (run_app [BEGIN] _ s [ANone] (upd_opened (λ l, l ++ [∅]) s)) by done.
    rewrite (run_app ops1 _ _ a1 t1 Ht1).
    rewrite (run_app [BEGIN] _ t1 [ANone] (upd_opened (λ l, l ++ [∅]) t1)) by done.
    rewrite (run_app ops2 _ _ a2 t2 Ht2).
    simpl. unfold mbind, M_bind. by rewrite Hc.
Qed.

(** ** The calls on concrete inputs *)

(** Claim C1, at the input where the code breaks it.  After [BEGIN],
    a [SET] of key [a] to the empty string, and [COMMIT], a reachable
    state, [num_equal_to] of the empty string answers 1 while the merged
    view holds no key at all.  [commit] tests the last history entry with
    [if value:], which the empty string fails as [None] does: the key is
    removed from the store, and its frequency is folded in all the same. *)
Example frequency_invariant_broken_by_empty_value :
  let s := final_state (run [BEGIN; SET "a" EmptyString; COMMIT] Database.new) in
  reachable s ∧
  returned (Database.num_equal_to EmptyString s) = Some 1%Z ∧
  merged_view s = ∅ ∧
  nkeys (merged_view s) EmptyString = 0%Z.
Proof.
  split.
  - change (reachable (final_state (exec COMMIT (final_state (exec (SET "a" EmptyString)
      (final_state (exec BEGIN Database.new))))))).
    repeat (apply reachable_exec; [exact I|]). apply reachable_new.
  - vm_compute. done.
Qed.

(** Claim C3, at an input where the code breaks it.  From the store that
    holds [a = 1], the calls [UNSET a] and [SET b 2] issued inside two
    nested transactions and committed leave the store [b = 2]; issued
    directly, [UNSET a] raises [AttributeError] and the store still holds
    [a = 1]. *)
Example flattening_broken_by_unset :
  let s := final_state (exec (SET "a" "1") Database.new) in
  database (final_state (run ([BEGIN; UNSET "a"] ++ [BEGIN; SET "b" "2"] ++ [COMMIT]) s))
    = mkData {["b" := "2"]} {["2" := 1%Z]} ∧
  run ([UNSET "a"] ++ [SET "b" "2"]) s = Raise AttributeError s ∧
  database s = mkData {["a" := "1"]} {["1" := 1%Z]}.
Proof. vm_compute. done. Qed.

(** Claim C4, at the input where the code breaks it.  With one layer open
    in which key [a] was set to the empty string, the last history entry
    of [a] is that string, not the deleted-marker; [commit] nevertheless
    leaves the store without the key [a], while it folds the count of the
    empty string into the store's index. *)
Example commit_drops_empty_value :
  let s := final_state (run [BEGIN; SET "a" EmptyString] Database.new) in
  txn_data s !! "a" = Some [Some EmptyString] ∧
  txn_freq s = {[EmptyString := 1%Z]} ∧
  Database.commit s =
    Return true (mkDatabase (mkData ∅ {[EmptyString := 1%Z]}) TransactionHandler.new).
Proof. vm_compute. done. Qed.

(** Claim C5, at the input where the code breaks it.  With key [a] present
    in the store and no transaction open, [unset a] raises
    [AttributeError] and leaves the store as it was: the key is still
    there. *)
Example direct_unset_raises :
  let s := final_state (exec (SET "a" "1") Database.new) in
  opened s = [] ∧
  db_data s !! "a" = Some "1" ∧
  Database.unset "a" s = Raise AttributeError s.
Proof. vm_compute. done. Qed.

(** Claim C6, at the input where the code breaks it.  On the fresh database,
    where key [a] is absent and no transaction is open, [unset a] does not
    return: it raises [AttributeError]. *)
Example unset_absent_raises :
  returned (Database.get "a" Database.new) = Some None ∧
  Database.unset "a" Database.new = Raise AttributeError Database.new.
Proof. vm_compute. done. Qed.

(** The inverse property on the store [b = 1], with a set, an unset and a
    get between [BEGIN] and [ROLLBACK]. *)
Lemma rollback_inverse_witness :
  ∃ answers s',
    run (BEGIN :: [SET "a" "2"; UNSET "b"; GET "a"] ++ [ROLLBACK])
      (final_state (exec (SET "b" "1") Database.new)) = Return answers s' ∧
    (∀ key, returned (Database.get key s') =
            returned (Database.get key (final_state (exec (SET "b" "1") Database.new)))) ∧
    (∀ value, returned (Database.num_equal_to value s') =
       returned (Database.num_equal_to value (final_state (exec (SET "b" "1") Database.new)))).
Proof.
  apply (rollback_inverse (final_state (exec (SET "b" "1") Database.new))
           [SET "a" "2"; UNSET "b"; GET "a"]).
  - apply reachable_exec; [exact I|apply reachable_new].
  - repeat constructor.
Defined.

(** Setting [a] to 1 twice: the second call changes nothing. *)
Lemma set_same_value_noop_witness :
  Database.set "a" "1" (final_state (exec (SET "a" "1") Database.new)) =
  Return tt (final_state (exec (SET "a" "1") Database.new)).
Proof.
  apply (set_same_value_noop (final_state (exec (SET "a" "1") Database.new)) "a" "1").
  vm_compute. reflexivity.
Defined.

(** The discipline in the state after [BEGIN] and a set of [a]. *)
Lemma history_discipline_witness :
  let s := final_state (exec (SET "a" "1") (final_state (exec BEGIN Database.new))) in
  length (history_of s "a") = layers_touching s "a" ∧
  (∀ L top, opened s = L ++ [top] → "a" ∈ top →
     (∀ value, ∃ s', Database.set "a" value s = Return tt s' ∧
        history_of s' "a" = removelast (history_of s "a") ++ [Some value]) ∧
     (∃ s', Database.unset "a" s = Return tt s' ∧
        history_of s' "a" = removelast (history_of s "a") ++ [None])).
Proof.
  apply (history_discipline
           (final_state (exec (SET "a" "1") (final_state (exec BEGIN Database.new)))) "a").
  repeat (apply reachable_exec; [exact I|]). apply reachable_new.
Defined.

(** Non-empty histories in the state after [BEGIN] and a set of [a]. *)
Lemma history_lists_nonempty_witness :
  let s := final_state (exec (SET "a" "1") (final_state (exec BEGIN Database.new))) in
  (∀ key key_list, txn_data s !! key = Some key_list → key_list ≠ []) ∧
  (∀ key, ∃ value found,
     TransactionHandler.get key s = Return (value, found) s ∧
     (found = true ↔ ∃ layer, layer ∈ opened s ∧ key ∈ layer)).
Proof.
  apply (history_lists_nonempty
           (final_state (exec (SET "a" "1") (final_state (exec BEGIN Database.new))))).
  repeat (apply reachable_exec; [exact I|]). apply reachable_new.
Defined.

(** * Further properties of the code *)

(** ** The engine's calls, one by one *)

Lemma reachable_store_sparse allowed s : reachable_by allowed s → sparse (db_freq s).
Proof.
  induction 1 as [|o s Ho Hr IH]; [apply sparse_empty|].
  eapply effect_store_sparse; [done|]. apply exec_effect, (reachable_by_inv _ _ Hr).
Qed.

Lemma write_merged_delete s s' touched k :
  database s' = database s →
  txn_data s' = <[k := written_history s touched k None]> (txn_data s) →
  merged_view s' = delete k (merged_view s).
Proof.
  intros Hdb Htd. apply map_eq. intros j. rewrite merged_view_lookup, Hdb, Htd.
  destruct (decide (j = k)) as [->|Hj].
  - rewrite lookup_insert_eq, lookup_delete_eq. unfold written_history.
    by rewrite overlay_snoc.
  - rewrite lookup_insert_ne, lookup_delete_ne by done. by rewrite merged_view_lookup.
Qed.

(** What [set] makes of the merged view and of the counts. *)
Lemma set_view s k v :
  handler_inv s →
  ∃ s', Database.set k v s = Return tt s' ∧ handler_inv s' ∧
    merged_view s' = <[k := v]> (merged_view s) ∧
    ∀ w, (Data.count (db_freq s') w + Data.count (txn_freq s') w =
          Data.count (db_freq s) w + Data.count (txn_freq s) w
          - ind (merged_view s !! k) w + ind (Some v) w)%Z.
Proof.
  intros Hinv.
  pose proof (exec_effect (SET k v) s Hinv) as He.
  pose proof (exec_inv (SET k v) s Hinv) as Hafter.
  remember (exec (SET k v) s) as r eqn:Hr. remember (SET k v) as o eqn:Ho.
  symmetry in Hr.
  effect_cases He; try done; injection Ho as -> ->; simpl in Hafter.
  - exists s. split_and!; [by eapply exec_SET|done| |].
    + by rewrite insert_id.
    + intros w. rewrite Hsame. lia.
  - pose proof (merged_view_closed s Hinv Hop) as Hm.
    eexists. split_and!; [by eapply exec_SET|done| |].
    + rewrite (merged_view_closed _ Hafter) by done. simpl. by rewrite Hm.
    + intros w. simpl. rewrite count_increase, count_decrease, Hm. lia.
  - exists s'. split_and!; [by eapply exec_SET|done| |].
    + by eapply write_merged.
    + intros w. rewrite Htf, Hdb, count_increase, count_decrease. lia.
Qed.

(** What [unset] inside a transaction makes of the merged view and of the
    counts. *)
Lemma unset_view s k :
  handler_inv s → opened s ≠ [] →
  ∃ s', Database.unset k s = Return tt s' ∧ handler_inv s' ∧
    merged_view s' = delete k (merged_view s) ∧
    ∀ w, (Data.count (db_freq s') w + Data.count (txn_freq s') w =
          Data.count (db_freq s) w + Data.count (txn_freq s) w
          - ind (merged_view s !! k) w)%Z.
Proof.
  intros Hinv Hopen.
  pose proof (exec_effect (UNSET k) s Hinv) as He.
  pose proof (exec_inv (UNSET k) s Hinv) as Hafter.
  remember (exec (UNSET k) s) as r eqn:Hr. remember (UNSET k) as o eqn:Ho.
  symmetry in Hr.
  effect_cases He; try done; injection Ho as ->; simpl in Hafter.
  - exists s. split_and!; [by eapply exec_UNSET|done| |].
    + by rewrite delete_id.
    + intros w. rewrite Hnone, ind_None. lia.
  - exists s'. split_and!; [by eapply exec_UNSET|done| |].
    + by eapply write_merged_delete.
    + intros w. rewrite Htf, Hdb, count_decrease. lia.
Qed.

(** Extra X5.  In every reachable state, with or without a transaction,
    [set] returns, [get] of the key then gives the value set, and [get] of
    every other key gives what it gave before. *)
Theorem get_after_set s key value :
  reachable s →
  ∃ s', Database.set key value s = Return tt s' ∧
    returned (Database.get key s') = Some (Some value) ∧
    ∀ other, other ≠ key →
      returned (Database.get other s') = returned (Database.get other s).
Proof.
  intros Hr. pose proof (reachable_by_inv _ _ Hr) as Hinv.
  destruct (set_view s key value Hinv) as (s' & Hrun & Hinv' & Hm & _).
  exists s'. split; [done|]. split.
  - by rewrite inv_get, Hm, lookup_insert_eq.
  - intros other Hne. by rewrite !inv_get, Hm, lookup_insert_ne.
Qed.

(** Extra X6.  In every reachable state [set] moves one unit of frequency:
    afterwards [num_equal_to] of any value is what it was, less one if the
    key held that value before, plus one if it is the value set. *)
Theorem count_after_set s key value :
  reachable s →
  ∃ old s',
    Database.get key s = Return old s ∧
    Database.set key value s = Return tt s' ∧
    ∀ w before,
      returned (Database.num_equal_to w s) = Some before →
      returned (Database.num_equal_to w s') =
      Some (before - ind old w + ind (Some value) w)%Z.
Proof.
  intros Hr. pose proof (reachable_by_inv _ _ Hr) as Hinv.
  destruct (set_view s key value Hinv) as (s' & Hrun & Hinv' & _ & Hc).
  exists (merged_view s !! key), s'. split_and!; [by apply inv_get|done|].
  intros w before. rewrite !database_num_equal_to_spec. simpl.
  intros [= <-]. by rewrite Hc.
Qed.

(** Extra X7.  In every reachable state with a transaction open, [unset]
    returns, [get] of the key then gives [None], the other keys read as
    before, and [num_equal_to] of the value the key held drops by one. *)
Theorem unset_in_transaction s key :
  reachable s → opened s ≠ [] →
  ∃ old s',
    Database.get key s = Return old s ∧
    Database.unset key s = Return tt s' ∧
    returned (Database.get key s') = Some None ∧
    (∀ other, other ≠ key →
       returned (Database.get other s') = returned (Database.get other s)) ∧
    (∀ w before,
       returned (Database.num_equal_to w s) = Some before →
       returned (Database.num_equal_to w s') = Some (before - ind old w)%Z).
Proof.
  intros Hr Hopen. pose proof (reachable_by_inv _ _ Hr) as Hinv.
  destruct (unset_view s key Hinv Hopen) as (s' & Hrun & Hinv' & Hm & Hc).
  exists (merged_view s !! key), s'. split_and!; [by apply inv_get|done| | |].
  - by rewrite inv_get, Hm, lookup_delete_eq.
  - intros other Hne. by rewrite !inv_get, Hm, lookup_delete_ne.
  - intros w before. rewrite !database_num_equal_to_spec. simpl.
    intros [= <-]. by rewrite Hc.
Qed.

(** Extra X10.  While a transaction is open no call but [COMMIT] changes
    the store: its data and its frequency dictionary stay as they are. *)
Theorem store_untouched_in_transaction s o :
  reachable s → opened s ≠ [] → o ≠ COMMIT →
  database (final_state (exec o s)) = database s.
Proof.
  intros Hr Hopen Ho. pose proof (reachable_by_inv _ _ Hr) as Hinv.
  pose proof (exec_effect o s Hinv) as He.
  effect_cases He; try done.
Qed.

(** Extra X11.  The number of open transactions: [BEGIN] adds one,
    [ROLLBACK] takes one away (none if there is none), [COMMIT] closes them
    all, and the data calls leave it alone. *)
Theorem open_layers_after s o :
  reachable s →
  length (opened (final_state (exec o s))) =
  match o with
  | BEGIN => S (length (opened s))
  | ROLLBACK => pred (length (opened s))
  | COMMIT => 0
  | _ => length (opened s)
  end.
Proof.
  intros Hr. pose proof (reachable_by_inv _ _ Hr) as Hinv.
  pose proof (exec_effect o s Hinv) as He.
  effect_cases He; try done.
  - rewrite Hop', Hop, !length_app. done.
  - rewrite Hop', Hop, !length_app. done.
  - rewrite length_app. simpl. lia.
  - by rewrite Hop.
  - by rewrite Hop.
  - rewrite Hop', Hop, !length_app. simpl. lia.
  - by rewrite Hop.
  - by rewrite Hth.
Qed.

(** Extra X16.  For callers that never store the empty string, [COMMIT]
    with a transaction open succeeds, closes every transaction, and changes
    no answer: every [get] and every [num_equal_to] gives afterwards what
    it gave before. *)
Theorem commit_keeps_view s :
  reachable_by nonempty_value s → opened s ≠ [] →
  ∃ s', Database.commit s = Return true s' ∧
    opened s' = [] ∧
    (∀ key, returned (Database.get key s') = returned (Database.get key s)) ∧
    (∀ value, returned (Database.num_equal_to value s') =
              returned (Database.num_equal_to value s)).
Proof.
  intros Hr Hopen. pose proof (reachable_by_inv _ _ Hr) as Hinv.
  destruct (reachable_nonempty_store s Hr) as [_ Hh].
  destruct (handler_commit_spec s Hinv Hopen) as (s' & Hrun & Hth & Hdd & _ & Hc).
  pose proof (commit_merged s s' Hinv Hh Hdd) as Hdata.
  assert (handler_inv s') as Hinv'.
  { destruct s' as [d th]. simpl in Hth. subst th. apply inv_cleared. }
  assert (opened s' = []) as Hop' by (by rewrite Hth).
  exists s'. split_and!; [by apply database_commit_active|done| |].
  - intros key. rewrite !inv_get by done.
    by rewrite (merged_view_closed s' Hinv' Hop'), Hdata.
  - intros value. rewrite !database_num_equal_to_spec. simpl. f_equal.
    rewrite Hc, Hth. simpl. unfold Data.count at 3. rewrite lookup_empty. simpl. lia.
Qed.

Lemma data_ext {A} (d d' : Data A) :
  data d = data d' → values_freq d = values_freq d' → d = d'.
Proof. destruct d, d'. simpl. by intros -> ->. Qed.

(** Extra X14.  In a reachable state without an open transaction, [BEGIN]
    followed at once by [COMMIT] succeeds and gives the state back. *)
Theorem begin_commit_noop s :
  reachable s → opened s = [] →
  run [BEGIN; COMMIT] s = Return [ANone; ABool true] s.
Proof.
  intros Hr Hop. pose proof (reachable_by_inv _ _ Hr) as Hinv.
  pose proof (reachable_store_sparse _ _ Hr) as Hsp.
  set (s1 := upd_opened (λ l, l ++ [∅]) s).
  assert (handler_inv s1) as Hinv1 by apply (exec_inv BEGIN s Hinv).
  assert (opened s1 ≠ []) as Hop1 by (simpl; by destruct (opened s)).
  destruct (handler_commit_spec s1 Hinv1 Hop1) as (s' & Hrun & Hth & Hdd & Hsp' & Hc).
  destruct (inv_no_layers s Hinv Hop) as [Htd Htf].
  unfold s1 in Hdd, Hsp', Hc. simpl in Hdd, Hsp', Hc.
  assert (s' = s) as ->.
  { apply database_ext.
    - apply data_ext.
      + apply map_eq. intros j. rewrite Hdd, Htd, lookup_empty. done.
      + apply sparse_count_eq; [by apply Hsp'|done|].
        intros v. rewrite Hc, Htf. unfold Data.count at 2. rewrite lookup_empty.
        simpl. lia.
    - by rewrite Hth, Hop.
    - by rewrite Hth, Htd.
    - by rewrite Hth, Htf. }
  assert (exec COMMIT s1 = Return (ABool true) s) as E.
  { unfold exec, mbind, M_bind. by rewrite (database_commit_active s1 s Hop1 Hrun). }
  change [BEGIN; COMMIT] with ([BEGIN] ++ [COMMIT]).
  rewrite (run_app [BEGIN] [COMMIT] s [ANone] s1) by done.
  simpl. unfold mbind, M_bind. by rewrite E.
Qed.

(** Extra X3.  In every reachable state neither the store's frequency
    dictionary nor the transactions' stores a zero count. *)
Theorem frequencies_stay_sparse s :
  reachable s → sparse (db_freq s) ∧ sparse (txn_freq s).
Proof.
  intros Hr. split; [by eapply reachable_store_sparse|].
  apply (inv_sparse s (reachable_by_inv _ _ Hr)).
Qed.

(** Extra X12.  In a reachable state the only call that raises is [unset]
    without an open transaction: it raises [AttributeError] and leaves the
    state as it was.  No call runs into a missing key or an empty list. *)
Theorem only_direct_unset_raises s o e s' :
  reachable s → exec o s = Raise e s' →
  e = AttributeError ∧ s' = s ∧ opened s = [] ∧ ∃ key, o = UNSET key.
Proof.
  intros Hr Hraise. pose proof (reachable_by_inv _ _ Hr) as Hinv.
  pose proof (exec_effect o s Hinv) as He. rewrite Hraise in He.
  inversion He; subst. eauto.
Qed.

(** Extra X13.  In a reachable state without an open transaction the
    handler holds no history and no frequency, so that [num_equal_to] is
    the store's own count. *)
Theorem no_transaction_no_delta s :
  reachable s → opened s = [] →
  transaction_handler s = TransactionHandler.new ∧
  ∀ value, Database.num_equal_to value s = Return (Data.count (db_freq s) value) s.
Proof.
  intros Hr Hop. pose proof (reachable_by_inv _ _ Hr) as Hinv.
  pose proof (inv_no_layers_handler s Hinv Hop) as Hth. split; [done|].
  intros value. rewrite database_num_equal_to_spec, Hth. simpl.
  unfold Data.count at 2. rewrite lookup_empty. simpl. do 2 f_equal. lia.
Qed.

(** Extra X17.  For callers that never store the empty string, the store's
    own frequency of a value is, in every state they can reach, the number
    of the store's keys that hold the value. *)
Theorem store_index_exact s value :
  reachable_by nonempty_value s →
  Data.count (db_freq s) value = nkeys (db_data s) value.
Proof. intros Hr. by destruct (reachable_nonempty_store s Hr) as [Hst _]. Qed.

(** Extra X9.  In every state without an open transaction, [unset] raises
    [AttributeError] and leaves the state as it was, whether the key is
    present or not. *)
Theorem direct_unset_always_raises s key :
  opened s = [] → Database.unset key s = Raise AttributeError s.
Proof. apply database_unset_direct. Qed.

(** Extra X8.  In every reachable state with a transaction open, [unset]
    of a key that [get] finds absent returns and changes nothing. *)
Theorem unset_absent_in_transaction s key :
  reachable s → opened s ≠ [] →
  returned (Database.get key s) = Some None →
  Database.unset key s = Return tt s.
Proof.
  intros Hr Hopen Hget. pose proof (reachable_by_inv _ _ Hr) as Hinv.
  rewrite inv_get in Hget by done. simpl in Hget. injection Hget as Hnone.
  by apply database_unset_absent.
Qed.

(** Extra X4.  In every state, [get] and [num_equal_to] return and leave
    the state as it was. *)
Theorem reads_change_nothing s key value :
  (∃ v, Database.get key s = Return v s) ∧
  (∃ n, Database.num_equal_to value s = Return n s).
Proof.
  split; [|by eexists].
  unfold Database.get, Database.is_transaction_active. unfold mbind at 1, M_bind at 1.
  rewrite is_active_spec. case_bool_decide.
  - unfold mbind, M_bind. rewrite handler_get_spec.
    destruct (last _); unfold_monad; eauto.
  - unfold_monad. eauto.
Qed.

(** Extra X1.  [modify_freq] on a value adds [num] to its count, stores the
    sum unless it is zero, in which case the record is removed, and touches
    no other record; on [None] it does nothing. *)
Theorem modify_freq_entry f v n :
  Data.modify_freq f (Some v) n !! v =
    (if decide (Data.count f v + n = 0)%Z then None else Some (Data.count f v + n)%Z) ∧
  (∀ w, w ≠ v → Data.modify_freq f (Some v) n !! w = f !! w) ∧
  Data.modify_freq f None n = f.
Proof.
  unfold Data.modify_freq. simpl. rewrite lookup_insert_eq. split_and!; [| |done].
  - destruct (decide _) as [E|E].
    + rewrite E, bool_decide_eq_true_2 by done. by rewrite lookup_delete_eq.
    + rewrite bool_decide_eq_false_2 by congruence. by rewrite lookup_insert_eq.
  - intros w Hw. case_bool_decide.
    + by rewrite lookup_delete_ne, lookup_insert_ne.
    + by rewrite lookup_insert_ne.
Qed.

(** Extra X2.  On a frequency dictionary that stores no zero, increasing
    and then decreasing a value's frequency, or the other way round, gives
    the dictionary back. *)
Theorem increase_then_decrease f value :
  sparse f →
  Data.decrease_freq (Data.increase_freq f value) value = f ∧
  Data.increase_freq (Data.decrease_freq f value) value = f.
Proof.
  intros Hsp. split; apply sparse_count_eq; try done.
  - by apply sparse_decrease, sparse_increase.
  - intros w. rewrite count_decrease, count_increase. lia.
  - by apply sparse_increase, sparse_decrease.
  - intros w. rewrite count_increase, count_decrease. lia.
Qed.

(** ** The console *)

Lemma has_space_snoc w c :
  has_space (w +:+ String c EmptyString) = has_space w || is_space c.
Proof.
  induction w as [|a w IH]; simpl.
  - by rewrite orb_false_r.
  - by rewrite IH, orb_assoc.
Qed.

Lemma snoc_not_empty w c : w +:+ String c EmptyString ≠ EmptyString.
Proof. by destruct w. Qed.

Lemma split_from_tokens line : ∀ word,
  word = EmptyString ∨ token word → Forall token (split_from word line).
Proof.
  induction line as [|c line IH]; intros word Hword; simpl.
  - destruct Hword as [->|Hw]; [constructor|].
    destruct word; [by destruct Hw|]. constructor; [done|constructor].
  - destruct (is_space c) eqn:Hc.
    + destruct Hword as [->|Hw]; [apply IH; by left|].
      destruct word; [by destruct Hw|]. constructor; [done|]. apply IH. by left.
    + apply IH. right. split; [apply snoc_not_empty|].
      rewrite has_space_snoc, Hc, orb_false_r.
      destruct Hword as [->|[_ Hw]]; done.
Qed.

Lemma ascii_text_snoc w c :
  ascii_text (w +:+ String c EmptyString) =
  ascii_text w && (Ascii.nat_of_ascii c <? 128).
Proof.
  induction w as [|a w IH]; simpl.
  - by rewrite andb_true_r.
  - by rewrite IH, andb_assoc.
Qed.

Lemma split_from_ascii line : ∀ word,
  ascii_text word = true → ascii_text line = true →
  Forall (λ w, ascii_text w = true) (split_from word line).
Proof.
  induction line as [|c line IH]; intros word Hword Hline; simpl.
  - destruct word; [constructor|]. by repeat constructor.
  - simpl in Hline. apply andb_true_iff in Hline as [Hc Hline].
    destruct (is_space c).
    + destruct word; [by apply IH|]. constructor; [done|]. by apply IH.
    + apply IH; [|done]. by rewrite ascii_text_snoc, Hword, Hc.
Qed.

(** Extra X20.  The fields [read_from_stdin] gets from splitting an ASCII
    line are tokens of ASCII characters: none is empty and none holds a
    whitespace character. *)
Theorem split_gives_tokens line :
  ascii_text line = true → Forall ascii_token (split line).
Proof.
  intros Hline. unfold ascii_token. apply Forall_and. split.
  - apply split_from_tokens. by left.
  - by apply split_from_ascii.
Qed.

(** Every call on a state that satisfies the invariant returns, or is the
    direct [unset] and raises [AttributeError]. *)
Lemma exec_outcome o s :
  handler_inv s →
  (∃ a s', exec o s = Return a s') ∨ exec o s = Raise AttributeError s.
Proof.
  intros Hinv. pose proof (exec_effect o s Hinv) as He.
  destruct He; eauto.
Qed.

Lemma on_database_step {A} (m : M Database A) o (f : A → answer) c :
  (∀ s, exec o s = match m s with
                   | Return a s' => Return (f a) s'
                   | Raise e s' => Raise e s'
                   end) →
  nonempty_value o →
  reachable_by nonempty_value (DBConsole.database c) →
  let d' := final_state (exec o (DBConsole.database c)) in
  reachable_by nonempty_value d' ∧
  ((∃ a, DBConsole.on_database m c =
         Return a (DBConsole.mk d' (DBConsole.stdin c) (DBConsole.stdout c))) ∨
   DBConsole.on_database m c =
     Raise AttributeError (DBConsole.mk d' (DBConsole.stdin c) (DBConsole.stdout c))).
Proof.
  intros Hm Ho Hr d'. split; [by apply reachable_exec|].
  pose proof (exec_outcome o _ (reachable_by_inv _ _ Hr)) as Hout.
  unfold d', DBConsole.on_database. rewrite Hm in *.
  destruct (m (DBConsole.database c)) as [a s'|e s']; simpl.
  - left. eauto.
  - right. destruct Hout as [(a & s'' & Hx)|Hx]; [done|]. by injection Hx as -> ->.
Qed.

(** What one round of the dispatch leaves: a database that calls storing no
    empty string can reach, the input untouched; it returns or raises
    [AttributeError]. *)
Lemma dispatch_step method_name arguments c :
  (method_name, length arguments) ∈ DBConsole.valid_operations_arguments →
  Forall token arguments →
  reachable_by nonempty_value (DBConsole.database c) →
  ∃ c', (DBConsole.dispatch method_name arguments c = Return tt c' ∨
         DBConsole.dispatch method_name arguments c = Raise AttributeError c') ∧
        reachable_by nonempty_value (DBConsole.database c') ∧
        DBConsole.stdin c' = DBConsole.stdin c.
Proof.
  intros Hvalid Htok Hr. unfold DBConsole.valid_operations_arguments in Hvalid.
  unfold DBConsole.dispatch.
  repeat (apply elem_of_union in Hvalid as [Hvalid|Hvalid]);
    apply elem_of_singleton in Hvalid; injection Hvalid as -> Hlen;
    repeat (case_bool_decide; [|try done]); try done.
  - (* GET *)
    destruct arguments as [|name [|? ?]]; try done.
    destruct (on_database_step (Database.get name) (GET name) AValue c
                (λ _, eq_refl) I Hr) as [Hr' [[a E]|E]];
      unfold mbind, M_bind; rewrite E; [|eauto].
    eexists. split; [left; reflexivity|]. done.
  - (* SET *)
    destruct arguments as [|name [|value [|? ?]]]; try done.
    assert (value ≠ EmptyString) as Hv.
    { apply Forall_cons in Htok as [_ Htok]. by apply Forall_cons in Htok as [[Hv _] _]. }
    destruct (on_database_step (Database.set name value) (SET name value) (λ _, ANone) c
                (λ _, eq_refl) Hv Hr) as [Hr' [[a E]|E]].
    + destruct a. eauto.
    + eauto.
  - (* UNSET *)
    destruct arguments as [|name [|? ?]]; try done.
    destruct (on_database_step (Database.unset name) (UNSET name) (λ _, ANone) c
                (λ _, eq_refl) I Hr) as [Hr' [[a E]|E]].
    + destruct a. eauto.
    + eauto.
  - (* NUMEQUALTO *)
    destruct arguments as [|value [|? ?]]; try done.
    destruct (on_database_step (Database.num_equal_to value) (NUMEQUALTO value) ACount c
                (λ _, eq_refl) I Hr) as [Hr' [[a E]|E]];
      unfold mbind, M_bind; rewrite E; [|eauto].
    eexists. split; [left; reflexivity|]. done.
  - (* BEGIN *)
    destruct arguments; try done.
    destruct (on_database_step Database.begin BEGIN (λ _, ANone) c
                (λ _, eq_refl) I Hr) as [Hr' [[a E]|E]].
    + destruct a. eauto.
    + eauto.
  - (* ROLLBACK *)
    destruct arguments; try done.
    destruct (on_database_step Database.rollback ROLLBACK ABool c
                (λ _, eq_refl) I Hr) as [Hr' [[a E]|E]];
      unfold mbind, M_bind; rewrite E; [|eauto].
    destruct a; eexists; (split; [left; reflexivity|]); done.
  - (* COMMIT *)
    destruct arguments; try done.
    destruct (on_database_step Database.commit COMMIT ABool c
                (λ _, eq_refl) I Hr) as [Hr' [[a E]|E]];
      unfold mbind, M_bind; rewrite E; [|eauto].
    destruct a; eexists; (split; [left; reflexivity|]); done.
Qed.

(** One round of the loop: it consumes one line when it returns [True],
    raises nothing but [AttributeError], and leaves a database that calls
    storing no empty string can reach. *)
Lemma read_from_stdin_step c :
  reachable_by nonempty_value (DBConsole.database c) →
  ∃ c',
    (DBConsole.read_from_stdin c = Return false c' ∨
     DBConsole.read_from_stdin c = Raise AttributeError c' ∨
     (DBConsole.read_from_stdin c = Return true c' ∧
      length (DBConsole.stdin c) = S (length (DBConsole.stdin c')))) ∧
    reachable_by nonempty_value (DBConsole.database c').
Proof.
  intros Hr. unfold DBConsole.read_from_stdin, DBConsole.try_except_EOFError,
    DBConsole.input, DBConsole.print.
  unfold_monad.
  destruct (DBConsole.stdin c) as [|line rest] eqn:Hin.
  { exists c. split; [by left|done]. }
  pose proof (split_from_tokens line EmptyString (or_introl eq_refl)) as Htok.
  fold (split line) in Htok.
  set (c1 := DBConsole.mk (DBConsole.database c) rest (DBConsole.stdout c)).
  destruct (split line) as [|field0 arguments].
  { exists c1. split; [|done]. right. right. by split. }
  apply Forall_cons in Htok as [_ Htok].
  case_bool_decide as Hend.
  { exists c1. split; [by left|done]. }
  case_bool_decide as Hvalid.
  - destruct (dispatch_step (upper field0) arguments c1 Hvalid Htok Hr)
      as (c' & [E|E] & Hr' & Hin').
    + exists c'. split; [|done]. right. right. rewrite E.
      split; [done|]. by rewrite Hin'.
    + exists c'. split; [|done]. right. left. by rewrite E.
  - eexists. split; [right; right; split; [reflexivity|done]|done].
Qed.

Lemma listen_loop_step n c :
  reachable_by nonempty_value (DBConsole.database c) →
  ∃ c', (DBConsole.listen_loop n c = Return tt c' ∨
         DBConsole.listen_loop n c = Raise AttributeError c') ∧
        reachable_by nonempty_value (DBConsole.database c').
Proof.
  revert c. induction n as [|n IH]; intros c Hr.
  - exists c. split; [by left|done].
  - simpl. unfold mbind, M_bind.
    destruct (read_from_stdin_step c Hr) as (c1 & [E|[E|[E _]]] & Hr1); rewrite E.
    + exists c1. split; [by left|done].
    + exists c1. split; [by right|done].
    + apply IH, Hr1.
Qed.

(** More rounds than the input has lines change nothing. *)
Lemma listen_loop_fuel n : ∀ m c,
  reachable_by nonempty_value (DBConsole.database c) →
  length (DBConsole.stdin c) < n → length (DBConsole.stdin c) < m →
  DBConsole.listen_loop n c = DBConsole.listen_loop m c.
Proof.
  induction n as [|n IH]; intros m c Hr Hn Hm; [lia|].
  destruct m as [|m]; [lia|]. simpl. unfold mbind, M_bind.
  destruct (read_from_stdin_step c Hr) as (c1 & [E|[E|[E Hlen]]] & Hr1); rewrite E; try done.
  apply IH; [done|lia|lia].
Qed.

(** A whole session, from the fresh console. *)
Lemma main_outcome lines :
  ∃ c, (main lines = Return tt c ∨ main lines = Raise AttributeError c) ∧
       reachable_by nonempty_value (DBConsole.database c).
Proof.
  unfold main, DBConsole.listen. apply listen_loop_step. apply reachable_new.
Qed.

(** Extra X21.  Whatever the input, four exceptions the program's own
    operations could raise never leave [main]: no [TypeError] from a method
    called with the wrong number of arguments, no [KeyError] or
    [IndexError] from the handler's dictionary and list accesses, and no
    [EOFError] from [input()].  The table of valid operations, the
    handler's invariants and the [except] clause keep them in.  What the
    Python runtime may raise besides, such as a decoding error of
    [input()], is not part of the embedding. *)
Theorem session_keeps_four_exceptions_in lines c :
  main lines ≠ Raise TypeError c ∧
  main lines ≠ Raise KeyError c ∧
  main lines ≠ Raise IndexError c ∧
  main lines ≠ Raise EOFError c.
Proof.
  destruct (main_outcome lines) as (c' & [E|E] & _); rewrite E;
    split_and!; discriminate.
Qed.

(** Extra X22.  Whatever the input, in the database a console session
    leaves, [num_equal_to] of a value is the number of keys that hold it in
    the merged view: a field is never empty, so the console never stores
    the empty string. *)
Theorem session_frequency_invariant lines value :
  let d := DBConsole.database (final_state (main lines)) in
  returned (Database.num_equal_to value d) = Some (nkeys (merged_view d) value).
Proof.
  destruct (main_outcome lines) as (c & Hc & Hr).
  assert (final_state (main lines) = c) as -> by (by destruct Hc as [-> | ->]).
  simpl. f_equal.
  destruct (reachable_nonempty_store _ Hr) as [Hst _].
  rewrite (inv_delta _ (reachable_by_inv _ _ Hr)), Hst. lia.
Qed.

(** Extra X23.  The loop of [listen] ends on every finite input: one round
    more than there are lines is enough, and allowing more rounds gives the
    same session. *)
Theorem listen_needs_one_round_per_line lines n :
  length lines < n →
  DBConsole.listen_loop n (DBConsole.new lines) = main lines.
Proof.
  intros Hn. unfold main, DBConsole.listen.
  apply listen_loop_fuel; simpl; [apply reachable_new|done|lia].
Qed.

(** Extra X24.  A line whose first field is [END] in any letter case, with
    or without further fields, ends the session: nothing is printed, the
    database is left alone and the lines after it are not read. *)
Theorem END_stops_the_session c line rest field0 arguments :
  DBConsole.stdin c = line :: rest →
  split line = field0 :: arguments →
  upper field0 = "END" →
  DBConsole.listen c =
  Return tt (DBConsole.mk (DBConsole.database c) rest (DBConsole.stdout c)).
Proof.
  intros Hin Hsplit Hend.
  unfold DBConsole.listen. rewrite Hin. simpl.
  unfold DBConsole.read_from_stdin, DBConsole.try_except_EOFError, DBConsole.input.
  unfold_monad. rewrite Hin, Hsplit, Hend.
  rewrite bool_decide_eq_true_2; [done|]. unfold DBConsole.end_operation. set_solver.
Qed.

(** Extra X25.  At the end of the input [listen] returns: [EOFError] is
    caught, nothing is printed and nothing changes. *)
Theorem end_of_input_stops_the_session c :
  DBConsole.stdin c = [] → DBConsole.listen c = Return tt c.
Proof.
  intros Hin. unfold DBConsole.listen. rewrite Hin. simpl.
  unfold DBConsole.read_from_stdin, DBConsole.try_except_EOFError, DBConsole.input.
  unfold_monad. by rewrite Hin.
Qed.

Lemma read_valid c line rest field0 arguments :
  DBConsole.stdin c = line :: rest →
  split line = field0 :: arguments →
  upper field0 ≠ "END" →
  (upper field0, length arguments) ∈ DBConsole.valid_operations_arguments →
  DBConsole.read_from_stdin c =
  match DBConsole.dispatch (upper field0) arguments
          (DBConsole.mk (DBConsole.database c) rest (DBConsole.stdout c)) with
  | Return _ c' => Return true c'
  | Raise EOFError c' => Return false c'
  | Raise e c' => Raise e c'
  end.
Proof.
  intros Hin Hsplit Hend Hvalid.
  unfold DBConsole.read_from_stdin, DBConsole.try_except_EOFError, DBConsole.input.
  unfold_monad. rewrite Hin, Hsplit.
  rewrite bool_decide_eq_false_2 by (unfold DBConsole.end_operation; set_solver).
  rewrite bool_decide_eq_true_2 by done.
  destruct (DBConsole.dispatch _ _ _) as [[] c'|[] c']; done.
Qed.

(** Extra X26.  On a reachable database, an ASCII line [GET name] in any
    letter case prints the key's value in the merged view, or [NULL] when
    the key is absent or holds the empty string, changes nothing else, and
    lets the loop go on. *)
Theorem GET_prints_value_or_NULL c line rest field0 name :
  reachable (DBConsole.database c) →
  DBConsole.stdin c = line :: rest →
  ascii_text line = true →
  split line = [field0; name] →
  upper field0 = "GET" →
  DBConsole.read_from_stdin c =
  Return true
    (DBConsole.mk (DBConsole.database c) rest
       (DBConsole.stdout c ++
        [Text match merged_view (DBConsole.database c) !! name with
              | Some v => if decide (v = EmptyString) then "NULL" else v
              | None => "NULL"
              end])).
Proof.
  intros Hr Hin _ Hsplit Hverb. pose proof (reachable_by_inv _ _ Hr) as Hinv.
  rewrite (read_valid c line rest field0 [name] Hin Hsplit); rewrite Hverb; [|done|].
  2:{ unfold DBConsole.valid_operations_arguments. set_solver. }
  unfold DBConsole.dispatch, DBConsole.on_database, DBConsole.print.
  rewrite bool_decide_eq_true_2 by done. unfold_monad. simpl.
  rewrite inv_get by done. do 4 f_equal.
  destruct (merged_view _ !! name) as [v|]; simpl; [|done].
  destruct (decide (v = EmptyString)) as [->|Hv].
  - done.
  - by rewrite bool_decide_eq_true_2.
Qed.

(** Extra X27.  An ASCII line [UNSET name] read while no transaction is
    open ends the session with [AttributeError]: the exception is not
    caught, the database and the output are left as they were, and the
    lines after it are not read. *)
Theorem UNSET_outside_transaction_ends_the_session c line rest field0 name :
  DBConsole.stdin c = line :: rest →
  ascii_text line = true →
  split line = [field0; name] →
  upper field0 = "UNSET" →
  opened (DBConsole.database c) = [] →
  DBConsole.listen c =
  Raise AttributeError (DBConsole.mk (DBConsole.database c) rest (DBConsole.stdout c)).
Proof.
  intros Hin _ Hsplit Hverb Hop.
  unfold DBConsole.listen. rewrite Hin. simpl. unfold mbind at 1, M_bind at 1.
  rewrite (read_valid c line rest field0 [name] Hin Hsplit); rewrite Hverb; [|done|].
  2:{ unfold DBConsole.valid_operations_arguments. set_solver. }
  unfold DBConsole.dispatch, DBConsole.on_database.
  rewrite bool_decide_eq_false_2 by done. rewrite bool_decide_eq_false_2 by done.
  rewrite bool_decide_eq_true_2 by done. simpl.
  by rewrite database_unset_direct.
Qed.

(** Extra X28.  A line [ROLLBACK] or [COMMIT] read while no transaction is
    open prints [NO TRANSACTION], changes nothing, and lets the loop go
    on. *)
Theorem closing_without_transaction_prints_NO_TRANSACTION c line rest field0 :
  DBConsole.stdin c = line :: rest →
  split line = [field0] →
  upper field0 = "ROLLBACK" ∨ upper field0 = "COMMIT" →
  opened (DBConsole.database c) = [] →
  DBConsole.read_from_stdin c =
  Return true
    (DBConsole.mk (DBConsole.database c) rest
       (DBConsole.stdout c ++ [Text "NO TRANSACTION"])).
Proof.
  intros Hin Hsplit Hverb Hop.
  destruct Hverb as [Hverb|Hverb];
    rewrite (read_valid c line rest field0 [] Hin Hsplit); rewrite Hverb; try done;
    try (unfold DBConsole.valid_operations_arguments; set_solver);
    unfold DBConsole.dispatch, DBConsole.on_database, DBConsole.print;
    repeat (rewrite bool_decide_eq_false_2 by done);
    rewrite bool_decide_eq_true_2 by done; unfold_monad; simpl.
  - by rewrite database_rollback_inactive.
  - by rewrite database_commit_inactive.
Qed.

(** ** The repository's tests, run on the embedding *)

(** [test_set_value_check_data] *)
Example test_set_value_check_data :
  database (final_state (run [SET "a" "1"] Database.new)) =
  mkData {["a" := "1"]} {["1" := 1%Z]}.
Proof. vm_compute. reflexivity. Qed.

(** [test_get_key_found] and [test_get_key_not_found] *)
Example test_get_key :
  run [SET "b" "1"; GET "b"; GET "a"] Database.new =
  Return [ANone; AValue (Some "1"); AValue None]
    (final_state (run [SET "b" "1"] Database.new)).
Proof. vm_compute. reflexivity. Qed.

(** [test_can_rollback_] *)
Example test_can_rollback :
  let before := final_state (run [SET "a" "1"; SET "z" "30"] Database.new) in
  let inside := final_state (run [BEGIN; SET "bb" "9999"; SET "cc" "9999"] before) in
  transactions (transaction_handler inside) =
    mkData {["cc" := [Some "9999"]; "bb" := [Some "9999"]]} {["9999" := 2%Z]} ∧
  Database.rollback inside = Return true before ∧
  database before = mkData {["a" := "1"; "z" := "30"]} {["1" := 1%Z; "30" := 1%Z]}.
Proof. vm_compute. done. Qed.

(** [test_can_commit] *)
Example test_can_commit :
  run [SET "a" "0"; SET "b" "0"; BEGIN; NUMEQUALTO "0"; UNSET "f"; SET "a" "10";
       UNSET "b"; SET "z" "100"; COMMIT] Database.new =
  Return [ANone; ANone; ANone; ACount 2; ANone; ANone; ANone; ANone; ABool true]
    (mkDatabase (mkData {["z" := "100"; "a" := "10"]} {["10" := 1%Z; "100" := 1%Z]})
       TransactionHandler.new).
Proof. vm_compute. reflexivity. Qed.

(** ** The further properties on concrete inputs *)

Lemma increase_then_decrease_witness :
  Data.decrease_freq (Data.increase_freq {["1" := 2%Z]} (Some "1")) (Some "1")
    = {["1" := 2%Z]} ∧
  Data.increase_freq (Data.decrease_freq {["1" := 2%Z]} (Some "1")) (Some "1")
    = {["1" := 2%Z]}.
Proof.
  apply (increase_then_decrease {["1" := 2%Z]} (Some "1")).
  intros v Hv. apply lookup_singleton_Some in Hv as [_ Hv]. discriminate.
Defined.

Lemma frequencies_stay_sparse_witness :
  sparse (db_freq layer_a1) ∧ sparse (txn_freq layer_a1).
Proof.
  apply (frequencies_stay_sparse layer_a1).
  unfold layer_a1. repeat (apply reachable_exec; [exact I|]). apply reachable_new.
Defined.

Lemma get_after_set_witness :
  ∃ s', Database.set "a" "2" layer_a1 = Return tt s' ∧
    returned (Database.get "a" s') = Some (Some "2") ∧
    ∀ other, other ≠ "a" →
      returned (Database.get other s') = returned (Database.get other layer_a1).
Proof.
  apply (get_after_set layer_a1 "a" "2").
  unfold layer_a1. repeat (apply reachable_exec; [exact I|]). apply reachable_new.
Defined.

Lemma count_after_set_witness :
  ∃ old s',
    Database.get "a" store_a1 = Return old store_a1 ∧
    Database.set "a" "2" store_a1 = Return tt s' ∧
    ∀ w before,
      returned (Database.num_equal_to w store_a1) = Some before →
      returned (Database.num_equal_to w s') =
      Some (before - ind old w + ind (Some "2") w)%Z.
Proof.
  apply (count_after_set store_a1 "a" "2").
  unfold store_a1. repeat (apply reachable_exec; [exact I|]). apply reachable_new.
Defined.

Lemma unset_in_transaction_witness :
  ∃ old s',
    Database.get "a" layer_a1 = Return old layer_a1 ∧
    Database.unset "a" layer_a1 = Return tt s' ∧
    returned (Database.get "a" s') = Some None ∧
    (∀ other, other ≠ "a" →
       returned (Database.get other s') = returned (Database.get other layer_a1)) ∧
    (∀ w before,
       returned (Database.num_equal_to w layer_a1) = Some before →
       returned (Database.num_equal_to w s') = Some (before - ind old w)%Z).
Proof.
  apply (unset_in_transaction layer_a1 "a").
  - unfold layer_a1. repeat (apply reachable_exec; [exact I|]). apply reachable_new.
  - vm_compute. discriminate.
Defined.

Lemma unset_absent_in_transaction_witness :
  Database.unset "b" layer_a1 = Return tt layer_a1.
Proof.
  apply (unset_absent_in_transaction layer_a1 "b").
  - unfold layer_a1. repeat (apply reachable_exec; [exact I|]). apply reachable_new.
  - vm_compute. discriminate.
  - vm_compute. reflexivity.
Defined.

Lemma direct_unset_always_raises_witness :
  Database.unset "a" store_a1 = Raise AttributeError store_a1.
Proof. apply (direct_unset_always_raises store_a1 "a"). vm_compute. reflexivity. Defined.

Lemma store_untouched_in_transaction_witness :
  database (final_state (exec (UNSET "a") layer_a1)) = database layer_a1.
Proof.
  apply (store_untouched_in_transaction layer_a1 (UNSET "a")).
  - unfold layer_a1. repeat (apply reachable_exec; [exact I|]). apply reachable_new.
  - vm_compute. discriminate.
  - discriminate.
Defined.

Lemma open_layers_after_witness :
  length (opened (final_state (exec ROLLBACK layer_a1))) = pred (length (opened layer_a1)).
Proof.
  apply (open_layers_after layer_a1 ROLLBACK).
  unfold layer_a1. repeat (apply reachable_exec; [exact I|]). apply reachable_new.
Defined.

Lemma only_direct_unset_raises_witness :
  AttributeError = AttributeError ∧ store_a1 = store_a1 ∧ opened store_a1 = [] ∧
  ∃ key, UNSET "a" = UNSET key.
Proof.
  apply (only_direct_unset_raises store_a1 (UNSET "a") AttributeError store_a1).
  - unfold store_a1. repeat (apply reachable_exec; [exact I|]). apply reachable_new.
  - vm_compute. reflexivity.
Defined.

Lemma no_transaction_no_delta_witness :
  transaction_handler store_a1 = TransactionHandler.new ∧
  ∀ value, Database.num_equal_to value store_a1 =
           Return (Data.count (db_freq store_a1) value) store_a1.
Proof.
  apply (no_transaction_no_delta store_a1).
  - unfold store_a1. repeat (apply reachable_exec; [exact I|]). apply reachable_new.
  - vm_compute. reflexivity.
Defined.

Lemma begin_commit_noop_witness :
  run [BEGIN; COMMIT] store_a1 = Return [ANone; ABool true] store_a1.
Proof.
  apply (begin_commit_noop store_a1).
  - unfold store_a1. repeat (apply reachable_exec; [exact I|]). apply reachable_new.
  - vm_compute. reflexivity.
Defined.

Lemma commit_applies_witness :
  ∃ s', Database.commit layer_a1 = Return true s' ∧
    (∀ key, db_data s' !! key =
            match txn_data layer_a1 !! key with
            | Some key_list => committed (default None (last key_list))
            | None => db_data layer_a1 !! key
            end) ∧
    (∀ v, Data.count (db_freq s') v =
          (Data.count (db_freq layer_a1) v + Data.count (txn_freq layer_a1) v)%Z) ∧
    transaction_handler s' = TransactionHandler.new ∧
    Database.rollback s' = Return false s' ∧
    Database.commit s' = Return false s'.
Proof.
  apply (commit_applies layer_a1).
  - unfold layer_a1. repeat (apply reachable_exec; [exact I|]). apply reachable_new.
  - vm_compute. discriminate.
Defined.

Lemma commit_keeps_view_witness :
  ∃ s', Database.commit layer_a1 = Return true s' ∧
    opened s' = [] ∧
    (∀ key, returned (Database.get key s') = returned (Database.get key layer_a1)) ∧
    (∀ value, returned (Database.num_equal_to value s') =
              returned (Database.num_equal_to value layer_a1)).
Proof.
  apply (commit_keeps_view layer_a1).
  - unfold layer_a1. apply reachable_exec; [discriminate|].
    apply reachable_exec; [exact I|]. apply reachable_new.
  - vm_compute. discriminate.
Defined.

Lemma store_index_exact_witness :
  Data.count (db_freq store_a1) "1" = nkeys (db_data store_a1) "1".
Proof.
  apply (store_index_exact store_a1 "1").
  unfold store_a1. apply reachable_exec; [discriminate|]. apply reachable_new.
Defined.

Lemma frequency_invariant_nonempty_witness :
  returned (Database.num_equal_to "1" layer_a1) = Some (nkeys (merged_view layer_a1) "1").
Proof.
  apply (frequency_invariant_nonempty layer_a1 "1").
  unfold layer_a1. apply reachable_exec; [discriminate|].
  apply reachable_exec; [exact I|]. apply reachable_new.
Defined.

Lemma flattening_of_plain_calls_witness :
  ∃ answers1 answers2 s',
    run ([SET "a" "2"; GET "a"] ++ [SET "b" "2"; NUMEQUALTO "2"]) store_a1 =
      Return (answers1 ++ answers2) s' ∧
    run ([BEGIN] ++ [SET "a" "2"; GET "a"] ++ [BEGIN] ++
         [SET "b" "2"; NUMEQUALTO "2"] ++ [COMMIT]) store_a1 =
      Return ([ANone] ++ answers1 ++ [ANone] ++ answers2 ++ [ABool true]) s'.
Proof.
  apply (flattening_of_plain_calls store_a1
           [SET "a" "2"; GET "a"] [SET "b" "2"; NUMEQUALTO "2"]).
  - unfold store_a1. apply reachable_exec; [discriminate|]. apply reachable_new.
  - vm_compute. reflexivity.
  - repeat constructor. discriminate.
  - repeat constructor. discriminate.
Defined.

Lemma split_gives_tokens_witness : Forall ascii_token (split "  set  a\t1 ").
Proof. apply (split_gives_tokens "  set  a\t1 "). reflexivity. Defined.

Lemma listen_needs_one_round_per_line_witness :
  DBConsole.listen_loop 5 (DBConsole.new ["SET a 1"; "GET a"]) = main ["SET a 1"; "GET a"].
Proof. apply (listen_needs_one_round_per_line ["SET a 1"; "GET a"] 5). simpl. lia. Defined.

Lemma END_stops_the_session_witness :
  DBConsole.listen (DBConsole.new ["end now"; "SET a 1"]) =
  Return tt (DBConsole.mk Database.new ["SET a 1"] []).
Proof.
  apply (END_stops_the_session (DBConsole.new ["end now"; "SET a 1"])
           "end now" ["SET a 1"] "end" ["now"]); reflexivity.
Defined.

Lemma end_of_input_stops_the_session_witness :
  DBConsole.listen (DBConsole.mk store_a1 [] [Text "1"]) =
  Return tt (DBConsole.mk store_a1 [] [Text "1"]).
Proof. apply (end_of_input_stops_the_session (DBConsole.mk store_a1 [] [Text "1"])). reflexivity. Defined.

Lemma GET_prints_value_or_NULL_witness :
  DBConsole.read_from_stdin (DBConsole.mk store_a1 ["get a"] []) =
  Return true
    (DBConsole.mk store_a1 []
       ([] ++ [Text match merged_view store_a1 !! "a" with
                    | Some v => if decide (v = EmptyString) then "NULL" else v
                    | None => "NULL"
                    end])).
Proof.
  apply (GET_prints_value_or_NULL (DBConsole.mk store_a1 ["get a"] []) "get a" [] "get" "a").
  - simpl. unfold store_a1. apply reachable_exec; [exact I|]. apply reachable_new.
  - reflexivity.
  - reflexivity.
  - reflexivity.
  - reflexivity.
Defined.

Lemma UNSET_outside_transaction_ends_the_session_witness :
  DBConsole.listen (DBConsole.mk store_a1 ["UNSET a"; "GET a"] []) =
  Raise AttributeError (DBConsole.mk store_a1 ["GET a"] []).
Proof.
  apply (UNSET_outside_transaction_ends_the_session
           (DBConsole.mk store_a1 ["UNSET a"; "GET a"] []) "UNSET a" ["GET a"] "UNSET" "a");
    reflexivity.
Defined.

Lemma closing_without_transaction_prints_NO_TRANSACTION_witness :
  DBConsole.read_from_stdin (DBConsole.new ["rollback"]) =
  Return true (DBConsole.mk Database.new [] ([] ++ [Text "NO TRANSACTION"])).
Proof.
  apply (closing_without_transaction_prints_NO_TRANSACTION
           (DBConsole.new ["rollback"]) "rollback" [] "rollback").
  - reflexivity.
  - reflexivity.
  - left. reflexivity.
  - reflexivity.
Defined.
